(** * Cajita global mesh: uniform and non-uniform variants

    A shallow embedding of [Cajita_GlobalMesh.hpp] and the properties of
    its constructors and queries.

    The scalar type of the class templates is an IEEE 754 binary format,
    given by its precision [prec] and its exponent bound [emax]
    ([float] is [prec = 24], [emax = 128]; [double] is [prec = 53],
    [emax = 1024]).  Arithmetic is the bit-exact specification of
    [SpecFloat], in the default rounding mode (to nearest, ties to even),
    every operation rounded to the scalar type itself.  [int] is the
    32-bit two's complement integer and [std::size_t] the 64-bit unsigned
    one.  Expressions whose behaviour the language leaves undefined
    evaluate to [None]. *)

From Stdlib Require Import ZArith List String Bool Lia.
From Stdlib Require Import SpecFloat.
Import ListNotations.

Local Open Scope Z_scope.

(** ** Outcomes of evaluation *)

(** The result of running a constructor: an object, an exception
    ([std::logic_error] with its message), or no defined behaviour. *)
Inductive outcome (A : Type) : Type :=
| Ok (a : A)
| Throw (what : string)
| Undefined.

Arguments Ok {A} a.
Arguments Throw {A} what.
Arguments Undefined {A}.

Definition bind {A B : Type} (c : outcome A) (k : A -> outcome B) : outcome B :=
  match c with
  | Ok a => k a
  | Throw what => Throw what
  | Undefined => Undefined
  end.

(** An expression without exceptions, run inside a constructor. *)
Definition defined {A : Type} (c : option A) : outcome A :=
  match c with
  | Some a => Ok a
  | None => Undefined
  end.

Declare Scope outcome_scope.
Delimit Scope outcome_scope with outcome.
Notation "x <- c ;; k" := (bind c (fun x => k))
  (at level 61, c at next level, right associativity) : outcome_scope.
Notation "c ;; k" := (bind c (fun _ => k))
  (at level 61, right associativity) : outcome_scope.

(** Sequencing of expressions that may be undefined. *)
Definition obind {A B : Type} (c : option A) (k : A -> option B) : option B :=
  match c with
  | Some a => k a
  | None => None
  end.

Declare Scope ub_scope.
Delimit Scope ub_scope with ub.
Notation "x <- c ;; k" := (obind c (fun x => k))
  (at level 61, c at next level, right associativity) : ub_scope.

(** [for ( int d = 0; d < 3; ++d ) body]: the body run at each index in
    turn, left at the first exception. *)
Fixpoint for_each (ds : list Z) (body : Z -> outcome unit) : outcome unit :=
  match ds with
  | [] => Ok tt
  | d :: ds' => (body d ;; for_each ds' body)%outcome
  end.

Definition dims : list Z := [0; 1; 2].

(** ** [std::array<T, 3>] *)

Record array3 (T : Type) : Type := Array3 { elt0 : T; elt1 : T; elt2 : T }.

Arguments Array3 {T} elt0 elt1 elt2.
Arguments elt0 {T} a.
Arguments elt1 {T} a.
Arguments elt2 {T} a.

(** [a[i]]: defined for an index inside the array only. *)
Definition array_get {T : Type} (a : array3 T) (i : Z) : option T :=
  match i with
  | 0 => Some (elt0 a)
  | 1 => Some (elt1 a)
  | 2 => Some (elt2 a)
  | _ => None
  end.

(** ** [int] *)

Definition INT_MIN : Z := - 2 ^ 31.
Definition INT_MAX : Z := 2 ^ 31 - 1.

Definition in_int_range (z : Z) : bool := (INT_MIN <=? z) && (z <=? INT_MAX).

(** Conversion of an unsigned value to [int]: reduction modulo [2^32]
    into the signed range. *)
Definition wrap_int (z : Z) : Z := (z + 2 ^ 31) mod 2 ^ 32 - 2 ^ 31.

(** [Dim::I], [Dim::J], [Dim::K]. *)
Module Dim.
(** Modelled from the spec: [Cajita_Types.hpp], which declares the
      dimension indices, is not among the sources; the three spatial
      dimensions are numbered 0, 1 and 2, K being the third. *)
Definition I : Z := 0.
Definition J : Z := 1.
Definition K : Z := 2.
End Dim.

(** ** The scalar type *)

Section Scalar.

Variables prec emax : Z.

Definition Scalar : Type := spec_float.

Definition sub : Scalar -> Scalar -> Scalar := SFsub prec emax.
Definition mul : Scalar -> Scalar -> Scalar := SFmul prec emax.
Definition div : Scalar -> Scalar -> Scalar := SFdiv prec emax.

(** [std::abs] *)
Definition abs : Scalar -> Scalar := SFabs.

(** [x > y] *)
Definition gt (x y : Scalar) : bool := SFltb y x.

(** [x <= y] *)
Definition le (x y : Scalar) : bool := SFleb x y.

(** The scalar [m * 2^e], rounded to the format. *)
Definition dyadic (m e : Z) : Scalar := binary_normalize prec emax m e false.

(** Conversion of an [int] to the scalar type, to the nearest scalar
    where the integer is not one, and the scalar denoted by an integral
    literal such as [100.0]. *)
Definition scalar_of_int (n : Z) : Scalar := dyadic n 0.

(** [std::numeric_limits<Scalar>::epsilon()] *)
Definition epsilon : Scalar := dyadic 1 (1 - prec).

(** [Scalar( 100.0 ) * std::numeric_limits<Scalar>::epsilon()] *)
Definition tolerance : Scalar := mul (scalar_of_int 100) epsilon.

(** [std::rint]: the nearest integral value, ties to even, in the
    scalar type; zeros, infinities and NaN are returned as they are. *)
Definition rint (x : Scalar) : Scalar :=
  match x with
  | S754_finite s m e =>
      if 0 <=? e then x
      else
        let '(mrs, _) := shr (shr_record_of_loc (Zpos m) loc_Exact) e (- e) in
        let n := round_nearest_even (shr_m mrs) (loc_of_shr_record mrs) in
        binary_normalize prec emax (cond_Zopp s n) 0 s
  | _ => x
  end.

(** The integer part of a scalar, where it has one. *)
Definition truncate (x : Scalar) : option Z :=
  match x with
  | S754_zero _ => Some 0
  | S754_finite s m e =>
      Some (cond_Zopp s (if 0 <=? e then Z.shiftl (Zpos m) e
                         else Z.shiftr (Zpos m) (- e)))
  | S754_infinity _ | S754_nan => None
  end.

(** Conversion of a scalar to [int]: the fractional part is dropped;
    the behaviour is undefined when the result does not fit. *)
Definition int_of_scalar (x : Scalar) : option Z :=
  match truncate x with
  | Some z => if in_int_range z then Some z else None
  | None => None
  end.

End Scalar.

(** ** Uniform global mesh: [GlobalMesh<UniformMesh<Scalar>>] *)

Module UniformMesh.
Section WithScalar.

Variables prec emax : Z.

Local Abbreviation sub := (sub prec emax).
Local Abbreviation mul := (mul prec emax).
Local Abbreviation div := (div prec emax).
Local Abbreviation rint := (rint prec emax).
Local Abbreviation scalar_of_int := (scalar_of_int prec emax).
Local Abbreviation tolerance := (tolerance prec emax).

Record GlobalMesh : Type := Build {
  _global_low_corner : array3 Scalar;
  _global_high_corner : array3 Scalar;
  _cell_size : Scalar
}.

(** *** Global mesh interface *)

Definition lowCorner (this : GlobalMesh) (dim : Z) : option Scalar :=
  array_get (_global_low_corner this) dim.

Definition highCorner (this : GlobalMesh) (dim : Z) : option Scalar :=
  array_get (_global_high_corner this) dim.

Definition extent (this : GlobalMesh) (dim : Z) : option Scalar :=
  (h <- highCorner this dim ;;
   l <- lowCorner this dim ;;
   Some (sub h l))%ub.

Definition globalNumCell (this : GlobalMesh) (dim : Z) : option Z :=
  (e <- extent this dim ;;
   int_of_scalar (rint (div e (_cell_size this))))%ub.

Definition uniformCellSize (this : GlobalMesh) : Scalar := _cell_size this.

(** *** Constructors *)

Definition not_divisible : string :=
  "Extent not evenly divisible by uniform cell size".
Definition sizes_not_equal : string := "Cell sizes not equal".
Definition num_cell_mismatch : string := "Global number of cells mismatch".

(** The domain is evenly divisible by the cell size in dimension [d]
    within round-off error. *)
Definition check_divisible (this : GlobalMesh) (d : Z) : outcome unit :=
  (n <- defined (globalNumCell this d) ;;
   let ext := mul (scalar_of_int n) (_cell_size this) in
   e <- defined (extent this d) ;;
   if gt (abs (sub ext e)) tolerance then Throw not_divisible else Ok tt)%outcome.

(** Cell size constructor. *)
Definition GlobalMesh_cell_size
    (global_low_corner global_high_corner : array3 Scalar)
    (cell_size : Scalar) : outcome GlobalMesh :=
  let this := Build global_low_corner global_high_corner cell_size in
  (for_each dims (check_divisible this) ;;
   Ok this)%outcome.

(** We got the expected number of cells in dimension [d]. *)
Definition check_num_cell (this : GlobalMesh) (global_num_cell : array3 Z)
    (d : Z) : outcome unit :=
  (n <- defined (globalNumCell this d) ;;
   g <- defined (array_get global_num_cell d) ;;
   if negb (n =? g) then Throw num_cell_mismatch else Ok tt)%outcome.

(** One round of the loop of the number of cells constructor: both
  checks of dimension [d]. *)
Definition round (this : GlobalMesh) (global_num_cell : array3 Z) (d : Z)
  : outcome unit :=
  (check_divisible this d ;; check_num_cell this global_num_cell d)%outcome.

(** The cell size each dimension asks for:
    [( _global_high_corner[d] - _global_low_corner[d] ) / global_num_cell[d]]. *)
Definition candidate_cell_sizes
    (global_low_corner global_high_corner : array3 Scalar)
    (global_num_cell : array3 Z) : array3 Scalar :=
  let size (h l : Scalar) (n : Z) := div (sub h l) (scalar_of_int n) in
  Array3
    (size (elt0 global_high_corner) (elt0 global_low_corner) (elt0 global_num_cell))
    (size (elt1 global_high_corner) (elt1 global_low_corner) (elt1 global_num_cell))
    (size (elt2 global_high_corner) (elt2 global_low_corner) (elt2 global_num_cell)).

(** Number of global cells constructor. *)
Definition GlobalMesh_num_cell
    (global_low_corner global_high_corner : array3 Scalar)
    (global_num_cell : array3 Z) : outcome GlobalMesh :=
  let cell_sizes :=
    candidate_cell_sizes global_low_corner global_high_corner global_num_cell in
  (size_i <- defined (array_get cell_sizes Dim.I) ;;
   size_j <- defined (array_get cell_sizes Dim.J) ;;
   size_k <- defined (array_get cell_sizes Dim.K) ;;
   if gt (abs (sub size_i size_j)) tolerance
      || gt (abs (sub size_i size_k)) tolerance
   then Throw sizes_not_equal
   else
     let this := Build global_low_corner global_high_corner size_i in
     for_each dims (round this global_num_cell) ;;
     Ok this)%outcome.

(** *** What the constructors check *)

(** The absolute difference between
    [round( extent(d) / cell_size ) * cell_size] and [extent(d)]. *)
Definition divisibility_gap (this : GlobalMesh) (d : Z) : option Scalar :=
  (e <- extent this d ;;
   n <- int_of_scalar (rint (div e (_cell_size this))) ;;
   Some (abs (sub (mul (scalar_of_int n) (_cell_size this)) e)))%ub.

(** The difference is there: no conversion is out of range. *)
Definition gap_defined (this : GlobalMesh) (d : Z) : bool :=
  match divisibility_gap this d with
  | Some _ => true
  | None => false
  end.

(** The difference is greater than the tolerance. *)
Definition exceeds_tolerance (this : GlobalMesh) (d : Z) : bool :=
  match divisibility_gap this d with
  | Some g => gt g tolerance
  | None => false
  end.

(** The difference is there and is not greater than the tolerance. *)
Definition within_tolerance (this : GlobalMesh) (d : Z) : bool :=
  match divisibility_gap this d with
  | Some g => negb (gt g tolerance)
  | None => false
  end.

(** The difference is at most the tolerance. *)
Definition at_most_tolerance (this : GlobalMesh) (d : Z) : bool :=
  match divisibility_gap this d with
  | Some g => le g tolerance
  | None => false
  end.

(** Two candidate cell sizes differ by more than the tolerance. *)
Definition sizes_differ (x y : Scalar) : bool := gt (abs (sub x y)) tolerance.

(** The recomputed number of cells of dimension [d] is the one asked for. *)
Definition num_cell_agrees (this : GlobalMesh) (global_num_cell : array3 Z)
    (d : Z) : bool :=
  match globalNumCell this d, array_get global_num_cell d with
  | Some n, Some g => n =? g
  | _, _ => false
  end.

(** Both checks of dimension [d] pass. *)
Definition passes (this : GlobalMesh) (global_num_cell : array3 Z) (d : Z)
    : bool :=
  within_tolerance this d && num_cell_agrees this global_num_cell d.

(** The recomputed number of cells of dimension [d] is another one. *)
Definition num_cell_differs (this : GlobalMesh) (global_num_cell : array3 Z)
    (d : Z) : bool :=
  match globalNumCell this d, array_get global_num_cell d with
  | Some n, Some g => negb (n =? g)
  | _, _ => false
  end.

(** *** Calls *)

(** The queries are [const] member functions of a class without
    [mutable] members: a call answers from the object and hands the
    object on. *)
Inductive query : Type -> Type :=
| LowCorner (dim : Z) : query (option Scalar)
| HighCorner (dim : Z) : query (option Scalar)
| Extent (dim : Z) : query (option Scalar)
| GlobalNumCell (dim : Z) : query (option Z)
| UniformCellSize : query Scalar.

Definition call {A : Type} (q : query A) : GlobalMesh -> A * GlobalMesh :=
  match q in query T return GlobalMesh -> T * GlobalMesh with
  | LowCorner dim => fun this => (lowCorner this dim, this)
  | HighCorner dim => fun this => (highCorner this dim, this)
  | Extent dim => fun this => (extent this dim, this)
  | GlobalNumCell dim => fun this => (globalNumCell this dim, this)
  | UniformCellSize => fun this => (uniformCellSize this, this)
  end.

(** The object after a sequence of calls whose answers are dropped. *)
Fixpoint after_calls (qs : list {A : Type & query A}) (this : GlobalMesh)
    : GlobalMesh :=
  match qs with
  | [] => this
  | existT _ _ q :: qs' => after_calls qs' (snd (call q this))
  end.

End WithScalar.
End UniformMesh.

(** ** Non-uniform global mesh: [GlobalMesh<NonUniformMesh<Scalar>>] *)

(** [std::vector<T>] is a list. [v.front()] and [v.back()] are undefined
    on an empty vector. *)
Definition front {T : Type} (v : list T) : option T := hd_error v.

Fixpoint back {T : Type} (v : list T) : option T :=
  match v with
  | [] => None
  | [x] => Some x
  | _ :: v' => back v'
  end.

(** [v.size()], of the unsigned 64-bit type [std::size_t]. *)
Definition size {T : Type} (v : list T) : Z := Z.of_nat (List.length v).

Module NonUniformMesh.
Section WithScalar.

Variables prec emax : Z.

Local Abbreviation sub := (sub prec emax).

Record GlobalMesh : Type := Build {
  _edges : array3 (list Scalar)
}.

(** Constructor. *)
Definition GlobalMesh_edges (i_edges j_edges k_edges : list Scalar)
    : outcome GlobalMesh :=
  Ok (Build (Array3 i_edges j_edges k_edges)).

(** *** Global mesh interface *)

Definition lowCorner (this : GlobalMesh) (dim : Z) : option Scalar :=
  (e <- array_get (_edges this) dim ;; front e)%ub.

Definition highCorner (this : GlobalMesh) (dim : Z) : option Scalar :=
  (e <- array_get (_edges this) dim ;; back e)%ub.

Definition extent (this : GlobalMesh) (dim : Z) : option Scalar :=
  (h <- highCorner this dim ;;
   l <- lowCorner this dim ;;
   Some (sub h l))%ub.

(** [_edges[dim].size() - 1] is computed in [std::size_t] and converted
    to the [int] the function returns. *)
Definition globalNumCell (this : GlobalMesh) (dim : Z) : option Z :=
  (e <- array_get (_edges this) dim ;;
   Some (wrap_int ((size e - 1) mod 2 ^ 64)))%ub.

(** *** Non-uniform mesh specific *)

Definition nonUniformEdge (this : GlobalMesh) (dim : Z) : option (list Scalar) :=
  array_get (_edges this) dim.

(** *** Calls *)

Inductive query : Type -> Type :=
| LowCorner (dim : Z) : query (option Scalar)
| HighCorner (dim : Z) : query (option Scalar)
| Extent (dim : Z) : query (option Scalar)
| GlobalNumCell (dim : Z) : query (option Z)
| NonUniformEdge (dim : Z) : query (option (list Scalar)).

Definition call {A : Type} (q : query A) : GlobalMesh -> A * GlobalMesh :=
  match q in query T return GlobalMesh -> T * GlobalMesh with
  | LowCorner dim => fun this => (lowCorner this dim, this)
  | HighCorner dim => fun this => (highCorner this dim, this)
  | Extent dim => fun this => (extent this dim, this)
  | GlobalNumCell dim => fun this => (globalNumCell this dim, this)
  | NonUniformEdge dim => fun this => (nonUniformEdge this dim, this)
  end.

Fixpoint after_calls (qs : list {A : Type & query A}) (this : GlobalMesh)
    : GlobalMesh :=
  match qs with
  | [] => this
  | existT _ _ q :: qs' => after_calls qs' (snd (call q this))
  end.

End WithScalar.
End NonUniformMesh.

(** ** Creation functions *)

(** [std::shared_ptr<T>], by the object it owns. *)
Record shared_ptr (T : Type) : Type := SharedPtr { get : T }.

Arguments SharedPtr {T} get.
Arguments get {T} s.

(** [std::make_shared<T>( args... )]: the constructor is run, and its
    exception leaves the function. *)
Definition make_shared {T : Type} (construct : outcome T) : outcome (shared_ptr T) :=
  (object <- construct ;; Ok (SharedPtr object))%outcome.

(** [createUniformGlobalMesh], with a cell size. *)
Definition createUniformGlobalMesh_cell_size (prec emax : Z)
    (global_low_corner global_high_corner : array3 Scalar) (cell_size : Scalar)
    : outcome (shared_ptr UniformMesh.GlobalMesh) :=
  make_shared
    (UniformMesh.GlobalMesh_cell_size prec emax
       global_low_corner global_high_corner cell_size).

(** [createUniformGlobalMesh], with the numbers of cells. *)
Definition createUniformGlobalMesh_num_cell (prec emax : Z)
    (global_low_corner global_high_corner : array3 Scalar)
    (global_num_cell : array3 Z)
    : outcome (shared_ptr UniformMesh.GlobalMesh) :=
  make_shared
    (UniformMesh.GlobalMesh_num_cell prec emax
       global_low_corner global_high_corner global_num_cell).

Definition createNonUniformGlobalMesh (i_edges j_edges k_edges : list Scalar)
    : outcome (shared_ptr NonUniformMesh.GlobalMesh) :=
  make_shared (NonUniformMesh.GlobalMesh_edges i_edges j_edges k_edges).

(** ** Kinds of scalars and of edge sequences *)

(** The scalar is a number that is not infinite: a zero or a finite
    non-zero one. *)
Definition is_finite (x : Scalar) : bool :=
  match x with
  | S754_zero _ | S754_finite _ _ _ => true
  | S754_infinity _ | S754_nan => false
  end.

Definition is_zero (x : Scalar) : bool :=
  match x with
  | S754_zero _ => true
  | _ => false
  end.

Definition is_nan (x : Scalar) : bool :=
  match x with
  | S754_nan => true
  | _ => false
  end.

(** The mantissa of the scalar has no more digits than the format
    holds. *)
Definition mantissa_bounded (prec : Z) (x : Scalar) : bool :=
  match x with
  | S754_finite _ m _ => Zpos (digits2_pos m) <=? prec
  | _ => true
  end.

(** The record of [SpecFloat]'s right shift after [j] steps from the
    integer [a]: the quotient by [2^j], the last bit shifted out, and
    whether a bit shifted out before it was set. *)
Definition shr_inv (a : Z) (j : Z) (st : shr_record) : Prop :=
  shr_m st = a / 2 ^ j /\
  shr_r st = (0 <? j) && Z.odd (a / 2 ^ (j - 1)) /\
  shr_s st = (0 <? j) && negb (a mod 2 ^ (j - 1) =? 0).

(** The number a finite scalar stands for, [numerator / denominator]. *)
Definition numerator (x : Scalar) : Z :=
  match x with
  | S754_finite s m e => cond_Zopp s (Zpos m * 2 ^ Z.max e 0)
  | _ => 0
  end.

Definition denominator (x : Scalar) : Z :=
  match x with
  | S754_finite _ _ e => 2 ^ Z.max (- e) 0
  | _ => 1
  end.

(** Rounding, in the words of the spec: the integer [k] is the one
    nearest to the number [x] stands for, and the even one of the two
    when [x] is half way between two integers. *)
Definition nearest_integer (x : Scalar) (k : Z) : bool :=
  let twice_distance := 2 * Z.abs (numerator x - k * denominator x) in
  (twice_distance <? denominator x)
  || ((twice_distance =? denominator x) && Z.even k).

(** Every edge is greater than the one before it. *)
Fixpoint strictly_increasing (v : list Scalar) : bool :=
  match v with
  | x :: (y :: _) as v' => gt y x && strictly_increasing v'
  | _ => true
  end.

(** ** The two scalar types and some meshes *)

Module Binary64.
Definition prec : Z := 53.
Definition emax : Z := 1024.
Definition lit (n : Z) : Scalar := scalar_of_int prec emax n.
Definition corner (x y z : Z) : array3 Scalar := Array3 (lit x) (lit y) (lit z).
Definition infinity : Scalar := S754_infinity false.
End Binary64.

Module Binary32.
Definition prec : Z := 24.
Definition emax : Z := 128.
Definition lit (n : Z) : Scalar := scalar_of_int prec emax n.
Definition corner (x y z : Z) : array3 Scalar := Array3 (lit x) (lit y) (lit z).
Definition infinity : Scalar := S754_infinity false.
End Binary32.

(** * Properties *)

(** ** Outcomes and loops *)

Lemma bind_Ok {A B : Type} (c : outcome A) (k : A -> outcome B) (b : B) :
  bind c k = Ok b <-> exists a, c = Ok a /\ k a = Ok b.
Proof.
  destruct c as [a | w | ]; simpl; split.
  - intros H. exists a. auto.
  - intros [a' [E H]]. inversion E. subst. exact H.
  - discriminate.
  - intros [a' [E _]]. discriminate.
  - discriminate.
  - intros [a' [E _]]. discriminate.
Qed.

Lemma then_Ok_is_Ok {A : Type} (c : outcome unit) (a b : A) :
  (c ;; Ok a)%outcome = Ok b <-> c = Ok tt /\ b = a.
Proof.
  destruct c as [[] | w | ]; simpl; split;
    try discriminate; try (intros [H _]; discriminate).
  - intros H. injection H as <-. auto.
  - intros [_ ->]. reflexivity.
Qed.

Lemma then_Ok_is_Throw {A : Type} (c : outcome unit) (a : A) (what : string) :
  (c ;; Ok a)%outcome = Throw what <-> c = Throw what.
Proof. destruct c as [[] | w | ]; simpl; split; congruence. Qed.

Lemma Throw_not_Ok (what : string) : @Throw unit what <> Ok tt.
Proof. discriminate. Qed.

(** A loop ends normally exactly when every round does. *)
Lemma for_each_Ok (ds : list Z) (body : Z -> outcome unit) :
  for_each ds body = Ok tt <-> Forall (fun d => body d = Ok tt) ds.
Proof.
  induction ds as [| d ds IH]; simpl.
  - split; auto.
  - rewrite bind_Ok. split.
    + intros [[] [Hd Hds]]. constructor; [exact Hd | apply IH; exact Hds].
    + intros H. inversion H; subst. exists tt. split; [assumption | apply IH; assumption].
Qed.

(** A loop ends otherwise exactly when some round does, all rounds before
    it having ended normally. *)
Lemma for_each_first_failure (ds : list Z) (body : Z -> outcome unit)
    (r : outcome unit) :
  r <> Ok tt ->
  (for_each ds body = r <->
   exists pre d post,
     ds = pre ++ d :: post /\
     Forall (fun d' => body d' = Ok tt) pre /\
     body d = r).
Proof.
  intros Hr. induction ds as [| d ds IH]; simpl.
  - split.
    + intros H. symmetry in H. contradiction.
    + intros [pre [d [post [E _]]]]. destruct pre; discriminate.
  - split.
    + destruct (body d) as [[] | w | ] eqn:Hd; simpl.
      * intros H. apply IH in H. destruct H as [pre [d' [post [E [Hpre Hd']]]]].
        exists (d :: pre), d', post. subst ds. repeat split; auto.
      * intros H. exists [], d, ds. subst r. repeat split; auto.
      * intros H. exists [], d, ds. subst r. repeat split; auto.
    + intros [pre [d' [post [E [Hpre Hd']]]]].
      destruct pre as [| p pre]; simpl in E; injection E as E1 E2.
      * rewrite E1, Hd'. destruct r as [[] | w | ]; simpl; congruence.
      * apply Forall_cons_iff in Hpre. destruct Hpre as [Hp Hpre].
        rewrite E1, Hp. simpl.
        apply IH. exists pre, d', post. auto.
Qed.

(** ** Comparisons of scalars *)

Lemma SFcompare_antisym (x y : spec_float) :
  SFcompare y x = option_map CompOpp (SFcompare x y).
Proof.
  destruct x as [sx | sx | | sx mx ex], y as [sy | sy | | sy my ey]; simpl;
    try reflexivity;
    try (destruct sx; reflexivity);
    try (destruct sy; reflexivity);
    try (destruct sx, sy; reflexivity).
  destruct sx, sy; simpl; try reflexivity;
    rewrite (Z.compare_antisym ey ex);
    destruct (ey ?= ex); simpl; try reflexivity; f_equal.
  - rewrite CompOpp_involutive. exact (Pos.compare_cont_antisym my mx Eq).
  - symmetry. exact (Pos.compare_cont_antisym mx my Eq).
Qed.

(** Away from NaN, "not greater than" is "at most". *)
Lemma gt_negb_le (x y : Scalar) :
  x <> S754_nan -> y <> S754_nan -> gt x y = negb (le x y).
Proof.
  intros Hx Hy. unfold gt, le, SFltb, SFleb.
  rewrite (SFcompare_antisym x y).
  destruct (SFcompare x y) as [[ | | ] | ] eqn:E; simpl; try reflexivity.
  destruct x, y; simpl in E; try discriminate; congruence.
Qed.

(** A NaN is neither greater than a scalar nor at most one. *)
Lemma gt_nan (y : Scalar) : gt S754_nan y = false.
Proof. destruct y; reflexivity. Qed.

Lemma le_nan (y : Scalar) : le S754_nan y = false.
Proof. reflexivity. Qed.

(** ** Rounding and conversion, on examples *)

(** Halves go to the even neighbour, the sign of zero is kept, and
    [10 / 3] rounds to 3. *)
Example rint_examples :
  let r := rint Binary64.prec Binary64.emax in
  let half (n : Z) := dyadic Binary64.prec Binary64.emax n (- 1) in
  r (half 5) = Binary64.lit 2 /\
  r (half 7) = Binary64.lit 4 /\
  r (half (- 5)) = Binary64.lit (- 2) /\
  r (half 1) = S754_zero false /\
  r (half (- 1)) = S754_zero true /\
  r (dyadic Binary64.prec Binary64.emax 3 (- 2)) = Binary64.lit 1 /\
  r (div Binary64.prec Binary64.emax (Binary64.lit 10) (Binary64.lit 3))
  = Binary64.lit 3 /\
  r Binary64.infinity = Binary64.infinity /\
  r S754_nan = S754_nan.
Proof. vm_compute. repeat split. Qed.

(** The conversion to [int] is defined on the integers of [int] only. *)
Example int_of_scalar_examples :
  int_of_scalar (Binary64.lit 5) = Some 5 /\
  int_of_scalar (Binary64.lit (- 7)) = Some (- 7) /\
  int_of_scalar (dyadic Binary64.prec Binary64.emax 15 (- 2)) = Some 3 /\
  int_of_scalar (Binary64.lit INT_MAX) = Some INT_MAX /\
  int_of_scalar (Binary64.lit INT_MIN) = Some INT_MIN /\
  int_of_scalar (Binary64.lit (INT_MAX + 1)) = None /\
  int_of_scalar Binary64.infinity = None /\
  int_of_scalar S754_nan = None.
Proof. vm_compute. repeat split. Qed.

(** The tolerance is [100 * 2^-52] in double and [100 * 2^-23] in single
    precision. *)
Example tolerance_examples :
  tolerance Binary64.prec Binary64.emax
  = dyadic Binary64.prec Binary64.emax 100 (- 52) /\
  tolerance Binary32.prec Binary32.emax
  = dyadic Binary32.prec Binary32.emax 100 (- 23).
Proof. vm_compute. split; reflexivity. Qed.

(** ** Uniform mesh: the checks of the constructors *)

Section UniformChecks.

Variables prec emax : Z.

Local Abbreviation tolerance := (tolerance prec emax).
Local Abbreviation check_divisible := (UniformMesh.check_divisible prec emax).
Local Abbreviation check_num_cell := (UniformMesh.check_num_cell prec emax).
Local Abbreviation divisibility_gap := (UniformMesh.divisibility_gap prec emax).
Local Abbreviation within_tolerance := (UniformMesh.within_tolerance prec emax).
Local Abbreviation exceeds_tolerance := (UniformMesh.exceeds_tolerance prec emax).
Local Abbreviation at_most_tolerance := (UniformMesh.at_most_tolerance prec emax).
Local Abbreviation globalNumCell := (UniformMesh.globalNumCell prec emax).
Local Abbreviation extent := (UniformMesh.extent prec emax).

Implicit Types (this : UniformMesh.GlobalMesh) (d : Z).

(** The check of one dimension, by cases on the difference. *)
Lemma check_divisible_cases this d :
  check_divisible this d =
  match divisibility_gap this d with
  | None => Undefined
  | Some g => if gt g tolerance then Throw UniformMesh.not_divisible else Ok tt
  end.
Proof.
  unfold UniformMesh.check_divisible, UniformMesh.divisibility_gap,
    UniformMesh.globalNumCell.
  destruct (UniformMesh.extent prec emax this d) as [e | ]; simpl; [| reflexivity].
  destruct (int_of_scalar _) as [n | ]; reflexivity.
Qed.

Lemma check_divisible_Ok this d :
  check_divisible this d = Ok tt <-> within_tolerance this d = true.
Proof.
  rewrite check_divisible_cases. unfold UniformMesh.within_tolerance.
  destruct (divisibility_gap this d) as [g | ]; [destruct (gt g tolerance) |];
    simpl; split; congruence.
Qed.

Lemma check_divisible_Throw this d (what : string) :
  check_divisible this d = Throw what <->
  what = UniformMesh.not_divisible /\ exceeds_tolerance this d = true.
Proof.
  rewrite check_divisible_cases. unfold UniformMesh.exceeds_tolerance.
  destruct (divisibility_gap this d) as [g | ]; [destruct (gt g tolerance) |];
    simpl; split; try congruence; intros H; try (destruct H; congruence).
  split; congruence.
Qed.

Lemma check_divisible_Undefined this d :
  check_divisible this d = Undefined <-> divisibility_gap this d = None.
Proof.
  rewrite check_divisible_cases.
  destruct (divisibility_gap this d) as [g | ]; [destruct (gt g tolerance) |];
    simpl; split; congruence.
Qed.

(** A difference is never both within and beyond the tolerance. *)
Lemma exceeds_not_within this d :
  exceeds_tolerance this d = true -> within_tolerance this d = false.
Proof.
  unfold UniformMesh.exceeds_tolerance, UniformMesh.within_tolerance.
  destruct (divisibility_gap this d) as [g | ]; [| discriminate].
  intros ->. reflexivity.
Qed.

(** A difference that is a number is within the tolerance exactly when it
    is at most the tolerance. *)
Lemma within_tolerance_at_most this d (g : Scalar) :
  tolerance <> S754_nan ->
  divisibility_gap this d = Some g ->
  g <> S754_nan ->
  within_tolerance this d = at_most_tolerance this d.
Proof.
  intros Htol Hg Hnan.
  unfold UniformMesh.within_tolerance, UniformMesh.at_most_tolerance.
  rewrite Hg. rewrite gt_negb_le by assumption. apply negb_involutive.
Qed.

(** A difference that is NaN passes the check, and is not at most the
    tolerance. *)
Lemma within_tolerance_nan this d :
  divisibility_gap this d = Some S754_nan ->
  within_tolerance this d = true /\ at_most_tolerance this d = false.
Proof.
  intros Hg. unfold UniformMesh.within_tolerance, UniformMesh.at_most_tolerance.
  rewrite Hg, gt_nan. split; reflexivity.
Qed.

(** The loop of the cell size constructor. *)
Lemma for_each_check_divisible_Ok this (ds : list Z) :
  for_each ds (check_divisible this) = Ok tt <->
  forallb (within_tolerance this) ds = true.
Proof.
  rewrite for_each_Ok, forallb_forall, Forall_forall.
  split; intros H d Hd; apply check_divisible_Ok, H, Hd.
Qed.

Lemma for_each_check_divisible_Throw this (ds : list Z) :
  forallb (UniformMesh.gap_defined prec emax this) ds = true ->
  existsb (exceeds_tolerance this) ds = true ->
  for_each ds (check_divisible this) = Throw UniformMesh.not_divisible.
Proof.
  induction ds as [| d ds IH]; simpl; [discriminate |].
  rewrite check_divisible_cases.
  unfold UniformMesh.exceeds_tolerance, UniformMesh.gap_defined.
  destruct (divisibility_gap this d) as [g | ]; simpl; [| discriminate].
  destruct (gt g tolerance); simpl; auto.
Qed.


Local Abbreviation GlobalMesh_cell_size := (UniformMesh.GlobalMesh_cell_size prec emax).

Lemma GlobalMesh_cell_size_Ok (low high : array3 Scalar) (cell_size : Scalar)
    (m : UniformMesh.GlobalMesh) :
  GlobalMesh_cell_size low high cell_size = Ok m <->
  m = UniformMesh.Build low high cell_size /\
  forallb (within_tolerance m) dims = true.
Proof.
  unfold UniformMesh.GlobalMesh_cell_size. rewrite bind_Ok. split.
  - intros [[] [Hloop E]]. injection E as <-.
    split; [reflexivity | apply for_each_check_divisible_Ok, Hloop].
  - intros [-> H]. exists tt.
    split; [apply for_each_check_divisible_Ok, H | reflexivity].
Qed.

(** C1 (amended): on every input for which no conversion of
    [round(extent(d)/cell_size)] to [int] is out of range, the cell size
    constructor yields an object, the supplied corners and cell size
    stored as they are, exactly when in every dimension the absolute
    difference between [round(extent(d)/cell_size) * cell_size] and
    [extent(d)] is not greater than [100 * epsilon]; when the difference
    is greater in some dimension it fails with the
    "extent not evenly divisible" error and no object is produced.  A
    difference that is a number is not greater than the tolerance exactly
    when it is at most the tolerance; a difference that is NaN is not
    greater, and is not at most. *)
Theorem cell_size_constructor_divisibility
    (low high : array3 Scalar) (cell_size : Scalar) :
  let this := UniformMesh.Build low high cell_size in
  forallb (UniformMesh.gap_defined prec emax this) dims = true ->
  (GlobalMesh_cell_size low high cell_size = Ok this <->
   forallb (within_tolerance this) dims = true) /\
  (forall m, GlobalMesh_cell_size low high cell_size = Ok m -> m = this) /\
  (existsb (exceeds_tolerance this) dims = true ->
   GlobalMesh_cell_size low high cell_size = Throw UniformMesh.not_divisible /\
   forall m, GlobalMesh_cell_size low high cell_size <> Ok m) /\
  (forall d g,
      tolerance <> S754_nan ->
      divisibility_gap this d = Some g ->
      (g <> S754_nan -> within_tolerance this d = at_most_tolerance this d) /\
      (g = S754_nan ->
       within_tolerance this d = true /\ at_most_tolerance this d = false)).
Proof.
  intros this Hdef.
  split; [| split; [| split]]; [split | | |].
  - intros H. apply GlobalMesh_cell_size_Ok in H. apply H.
  - intros H. apply GlobalMesh_cell_size_Ok. split; [reflexivity | exact H].
  - intros m H. apply GlobalMesh_cell_size_Ok in H. apply H.
  - intros Hex.
    assert (Hthrow : GlobalMesh_cell_size low high cell_size
                     = Throw UniformMesh.not_divisible).
    { unfold UniformMesh.GlobalMesh_cell_size. fold this.
      rewrite (for_each_check_divisible_Throw this dims Hdef Hex). reflexivity. }
    split; [exact Hthrow |]. intros m H. rewrite Hthrow in H. discriminate.
  - intros d g Htol Hg. split.
    + apply within_tolerance_at_most; assumption.
    + intros ->. apply within_tolerance_nan. exact Hg.
Qed.

End UniformChecks.

(** The spec's non-divisible domain: corners (0,0,0) and (10,10,10) with
    cell size 3 are rejected, in double and in single precision. *)
Lemma cell_size_constructor_divisibility_witness :
  let low := Binary64.corner 0 0 0 in
  let high := Binary64.corner 10 10 10 in
  let this := UniformMesh.Build low high (Binary64.lit 3) in
  forallb (UniformMesh.gap_defined Binary64.prec Binary64.emax this) dims = true /\
  existsb (UniformMesh.exceeds_tolerance Binary64.prec Binary64.emax this) dims = true /\
  UniformMesh.GlobalMesh_cell_size Binary64.prec Binary64.emax
    low high (Binary64.lit 3)
  = Throw UniformMesh.not_divisible.
Proof.
  split; [vm_compute; reflexivity |]. split; [vm_compute; reflexivity |].
  apply (cell_size_constructor_divisibility Binary64.prec Binary64.emax
           (Binary64.corner 0 0 0) (Binary64.corner 10 10 10) (Binary64.lit 3));
    vm_compute; reflexivity.
Defined.

(** C1 as stated fails: with an infinite cell size the recomputed extent
    [0 * infinity] is NaN, which is not greater than the tolerance, so
    the constructor yields an object although in no dimension the
    difference is at most [100 * epsilon].  No conversion to [int] is out
    of range: the quotient [10 / infinity] is 0. *)
Lemma cell_size_constructor_accepts_infinite_cell_size :
  let low := Binary64.corner 0 0 0 in
  let high := Binary64.corner 10 10 10 in
  let this := UniformMesh.Build low high Binary64.infinity in
  UniformMesh.GlobalMesh_cell_size Binary64.prec Binary64.emax
    low high Binary64.infinity = Ok this /\
  forallb (UniformMesh.gap_defined Binary64.prec Binary64.emax this) dims = true /\
  UniformMesh.divisibility_gap Binary64.prec Binary64.emax this 0 = Some S754_nan /\
  forallb (UniformMesh.at_most_tolerance Binary64.prec Binary64.emax this) dims = false /\
  existsb (UniformMesh.at_most_tolerance Binary64.prec Binary64.emax this) dims = false.
Proof. vm_compute. repeat split. Qed.

(** The tolerance boundary: with cell size 1 and the extent
    [1 + k * epsilon] in every dimension, the mesh is constructed for
    [k = 99] and for [k = 100], where the difference is the tolerance
    itself, and rejected for [k = 101], in double and in single
    precision. *)
Lemma tolerance_boundary_example :
  (let mesh (k : Z) :=
     let high := dyadic Binary64.prec Binary64.emax (2 ^ 52 + k) (- 52) in
     UniformMesh.GlobalMesh_cell_size Binary64.prec Binary64.emax
       (Binary64.corner 0 0 0) (Array3 high high high) (Binary64.lit 1) in
   (exists m, mesh 99 = Ok m) /\
   (exists m, mesh 100 = Ok m) /\
   mesh 101 = Throw UniformMesh.not_divisible) /\
  (let mesh (k : Z) :=
     let high := dyadic Binary32.prec Binary32.emax (2 ^ 23 + k) (- 23) in
     UniformMesh.GlobalMesh_cell_size Binary32.prec Binary32.emax
       (Binary32.corner 0 0 0) (Array3 high high high) (Binary32.lit 1) in
   (exists m, mesh 99 = Ok m) /\
   (exists m, mesh 100 = Ok m) /\
   mesh 101 = Throw UniformMesh.not_divisible).
Proof.
  split; (split; [| split]);
    try (eexists; vm_compute; reflexivity); vm_compute; reflexivity.
Qed.

(** ** Uniform mesh: the number of cells constructor *)

Section UniformNumCell.

Variables prec emax : Z.

Local Abbreviation sub := (sub prec emax).
Local Abbreviation div := (div prec emax).
Local Abbreviation scalar_of_int := (scalar_of_int prec emax).
Local Abbreviation tolerance := (tolerance prec emax).
Local Abbreviation check_divisible := (UniformMesh.check_divisible prec emax).
Local Abbreviation check_num_cell := (UniformMesh.check_num_cell prec emax).
Local Abbreviation within_tolerance := (UniformMesh.within_tolerance prec emax).
Local Abbreviation exceeds_tolerance := (UniformMesh.exceeds_tolerance prec emax).
Local Abbreviation num_cell_agrees := (UniformMesh.num_cell_agrees prec emax).
Local Abbreviation num_cell_differs := (UniformMesh.num_cell_differs prec emax).
Local Abbreviation sizes_differ := (UniformMesh.sizes_differ prec emax).
Local Abbreviation candidate_cell_sizes := (UniformMesh.candidate_cell_sizes prec emax).
Local Abbreviation GlobalMesh_num_cell := (UniformMesh.GlobalMesh_num_cell prec emax).

Implicit Types (this : UniformMesh.GlobalMesh) (d : Z) (n : array3 Z).

Local Abbreviation round := (UniformMesh.round prec emax).
Local Abbreviation passes := (UniformMesh.passes prec emax).

Ltac round_cases this n d :=
  unfold UniformMesh.round, UniformMesh.passes; rewrite check_divisible_cases;
  unfold UniformMesh.check_num_cell, UniformMesh.within_tolerance,
    UniformMesh.exceeds_tolerance, UniformMesh.num_cell_agrees,
    UniformMesh.num_cell_differs,
    UniformMesh.not_divisible, UniformMesh.num_cell_mismatch;
  destruct (UniformMesh.divisibility_gap prec emax this d) as [g | ];
  [destruct (gt g tolerance) |]; simpl;
  try (destruct (UniformMesh.globalNumCell prec emax this d) as [k | ]; simpl;
       [destruct (array_get n d) as [c | ]; simpl; [destruct (k =? c) |] |]);
  simpl.

Lemma round_Ok this n d : round this n d = Ok tt <-> passes this n d = true.
Proof. round_cases this n d; split; congruence. Qed.

Lemma round_mismatch this n d :
  round this n d = Throw UniformMesh.num_cell_mismatch <->
  within_tolerance this d = true /\ num_cell_differs this n d = true.
Proof. round_cases this n d; split; try discriminate; try tauto; intros []; discriminate. Qed.

Lemma round_not_divisible this n d :
  round this n d = Throw UniformMesh.not_divisible <->
  exceeds_tolerance this d = true.
Proof. round_cases this n d; split; try discriminate; try tauto. Qed.

Lemma round_Throw this n d (what : string) :
  round this n d = Throw what ->
  what = UniformMesh.not_divisible \/ what = UniformMesh.num_cell_mismatch.
Proof.
  round_cases this n d; intros H; try discriminate;
    injection H as <-; auto.
Qed.

Lemma differs_not_agrees this n d :
  num_cell_differs this n d = true -> num_cell_agrees this n d = false.
Proof.
  unfold UniformMesh.num_cell_differs, UniformMesh.num_cell_agrees.
  destruct (UniformMesh.globalNumCell prec emax this d); [| discriminate].
  destruct (array_get n d); [| discriminate].
  destruct (_ =? _); simpl; congruence.
Qed.

Lemma Forall_round_passes this n (ds : list Z) :
  Forall (fun d => round this n d = Ok tt) ds <->
  forallb (passes this n) ds = true.
Proof.
  rewrite forallb_forall, Forall_forall.
  split; intros H d Hd; apply round_Ok, H, Hd.
Qed.

(** The constructor, by cases on the comparison of the candidates. *)
Lemma GlobalMesh_num_cell_cases (low high : array3 Scalar) n
    (sizes : array3 Scalar) (size_i size_j size_k : Scalar) :
  candidate_cell_sizes low high n = sizes ->
  array_get sizes Dim.I = Some size_i ->
  array_get sizes Dim.J = Some size_j ->
  array_get sizes Dim.K = Some size_k ->
  GlobalMesh_num_cell low high n =
  if sizes_differ size_i size_j || sizes_differ size_i size_k
  then Throw UniformMesh.sizes_not_equal
  else (for_each dims (round (UniformMesh.Build low high size_i) n) ;;
        Ok (UniformMesh.Build low high size_i))%outcome.
Proof.
  intros Hsizes Hi Hj Hk. unfold UniformMesh.GlobalMesh_num_cell.
  rewrite Hsizes, Hi, Hj, Hk. reflexivity.
Qed.

Lemma candidate_cell_sizes_get (low high : array3 Scalar) n d (h l : Scalar) (k : Z) :
  array_get high d = Some h ->
  array_get low d = Some l ->
  array_get n d = Some k ->
  array_get (candidate_cell_sizes low high n) d =
  Some (div (sub h l) (scalar_of_int k)).
Proof.
  intros Hh Hl Hn.
  destruct d as [| [[| | ] | [| | ] | ] | ]; simpl in *; try discriminate;
    injection Hh as <-; injection Hl as <-; injection Hn as <-; reflexivity.
Qed.

(** C2: the number of cells constructor computes the candidate cell size
    [extent(d) / n[d]] of every dimension; it fails with the
    "cell sizes not equal" error when the candidate of dimension I
    differs from that of J or from that of K by more than
    [100 * epsilon], and with no other input; otherwise the candidate of
    dimension I becomes the stored cell size: the constructor goes on
    with the object that holds it and yields that object exactly when
    the checks of every dimension pass, and [uniformCellSize] of an
    object it yields returns that candidate. *)
Theorem num_cell_constructor_cell_sizes
    (low high : array3 Scalar) n (size_i size_j size_k : Scalar) :
  let sizes := candidate_cell_sizes low high n in
  let this := UniformMesh.Build low high size_i in
  array_get sizes Dim.I = Some size_i ->
  array_get sizes Dim.J = Some size_j ->
  array_get sizes Dim.K = Some size_k ->
  (forall d h l k,
      array_get high d = Some h -> array_get low d = Some l ->
      array_get n d = Some k ->
      array_get sizes d = Some (div (sub h l) (scalar_of_int k))) /\
  (sizes_differ size_i size_j || sizes_differ size_i size_k = true <->
   GlobalMesh_num_cell low high n = Throw UniformMesh.sizes_not_equal) /\
  (sizes_differ size_i size_j || sizes_differ size_i size_k = false ->
   GlobalMesh_num_cell low high n
   = (for_each dims (round this n) ;; Ok this)%outcome /\
   (GlobalMesh_num_cell low high n = Ok this <->
    forallb (passes this n) dims = true) /\
   UniformMesh.uniformCellSize this = size_i /\
   forall m, GlobalMesh_num_cell low high n = Ok m ->
             m = this /\ UniformMesh.uniformCellSize m = size_i) /\
  (forall m, GlobalMesh_num_cell low high n = Ok m ->
             sizes_differ size_i size_j || sizes_differ size_i size_k = false).
Proof.
  intros sizes this Hi Hj Hk.
  split; [intros d h l k; apply candidate_cell_sizes_get |].
  rewrite (GlobalMesh_num_cell_cases low high n sizes size_i size_j size_k
             eq_refl Hi Hj Hk).
  fold this.
  destruct (sizes_differ size_i size_j || sizes_differ size_i size_k).
  - split; [split; reflexivity |]. split; [discriminate | discriminate].
  - split; [split; [discriminate |] |].
    + intros H. apply then_Ok_is_Throw in H.
      apply for_each_first_failure in H; [| apply Throw_not_Ok].
      destruct H as [pre [d [post [_ [_ H]]]]].
      apply round_Throw in H. destruct H; discriminate.
    + split; [| reflexivity]. intros _.
      split; [reflexivity |]. split; [| split; [reflexivity |]].
      * rewrite then_Ok_is_Ok, for_each_Ok, Forall_round_passes.
        split; [intros [H _]; exact H | intros H; split; [exact H | reflexivity]].
      * intros m H. apply then_Ok_is_Ok in H. destruct H as [_ ->].
        split; reflexivity.
Qed.

(** C3 (amended): once the comparison of the candidates has passed, the
    number of cells constructor runs, dimension by dimension, the
    evenly-divisible check of the cell size constructor and then compares
    the recomputed [globalNumCell(d)] with the [n[d]] asked for.  It
    yields the object exactly when both checks pass in every dimension,
    and no object when some recomputed number is another one.  Its
    failure is the "cell count mismatch" error exactly when, at the first
    dimension where a check does not pass, the difference is within
    tolerance and the number of cells is another one; it is the
    "extent not evenly divisible" error exactly when at that dimension
    the difference exceeds the tolerance. *)
Theorem num_cell_constructor_checks (low high : array3 Scalar) n (size_i : Scalar) :
  let sizes := candidate_cell_sizes low high n in
  let this := UniformMesh.Build low high size_i in
  array_get sizes Dim.I = Some size_i ->
  GlobalMesh_num_cell low high n <> Throw UniformMesh.sizes_not_equal ->
  (GlobalMesh_num_cell low high n = Ok this <->
   forallb (passes this n) dims = true) /\
  (GlobalMesh_num_cell low high n = Throw UniformMesh.num_cell_mismatch <->
   exists pre d post,
     dims = pre ++ d :: post /\
     forallb (passes this n) pre = true /\
     within_tolerance this d = true /\ num_cell_differs this n d = true) /\
  (GlobalMesh_num_cell low high n = Throw UniformMesh.not_divisible <->
   exists pre d post,
     dims = pre ++ d :: post /\
     forallb (passes this n) pre = true /\
     exceeds_tolerance this d = true) /\
  (existsb (num_cell_differs this n) dims = true ->
   forall m, GlobalMesh_num_cell low high n <> Ok m).
Proof.
  intros sizes this Hi.
  rewrite (GlobalMesh_num_cell_cases low high n sizes size_i (elt1 sizes) (elt2 sizes)
             eq_refl Hi eq_refl eq_refl).
  fold this.
  destruct (sizes_differ size_i (elt1 sizes) || sizes_differ size_i (elt2 sizes));
    [intros H; contradiction H; reflexivity | intros _].
  repeat split.
  - intros H. apply then_Ok_is_Ok in H. destruct H as [H _].
    apply Forall_round_passes, for_each_Ok, H.
  - intros H. apply then_Ok_is_Ok. split; [| reflexivity].
    apply for_each_Ok, Forall_round_passes, H.
  - intros H. apply then_Ok_is_Throw in H.
    apply for_each_first_failure in H; [| apply Throw_not_Ok].
    destruct H as [pre [d [post [E [Hpre H]]]]].
    exists pre, d, post. apply round_mismatch in H.
    repeat split; try tauto. apply Forall_round_passes, Hpre.
  - intros [pre [d [post [E [Hpre [Hw Hd]]]]]].
    apply then_Ok_is_Throw.
    apply for_each_first_failure; [apply Throw_not_Ok |].
    exists pre, d, post. repeat split; auto.
    + apply Forall_round_passes, Hpre.
    + apply round_mismatch. auto.
  - intros H. apply then_Ok_is_Throw in H.
    apply for_each_first_failure in H; [| apply Throw_not_Ok].
    destruct H as [pre [d [post [E [Hpre H]]]]].
    exists pre, d, post. apply round_not_divisible in H.
    repeat split; try tauto. apply Forall_round_passes, Hpre.
  - intros [pre [d [post [E [Hpre Hd]]]]].
    apply then_Ok_is_Throw.
    apply for_each_first_failure; [apply Throw_not_Ok |].
    exists pre, d, post. repeat split; auto.
    + apply Forall_round_passes, Hpre.
    + apply round_not_divisible. auto.
  - intros Hex m H. apply then_Ok_is_Ok in H. destruct H as [H _].
    apply for_each_Ok, Forall_round_passes in H.
    apply existsb_exists in Hex. destruct Hex as [d [Hd Hx]].
    rewrite forallb_forall in H. specialize (H d Hd).
    apply differs_not_agrees in Hx. unfold UniformMesh.passes in H.
    rewrite Hx, andb_false_r in H. discriminate.
Qed.

Lemma GlobalMesh_num_cell_Ok (low high : array3 Scalar) n (m : UniformMesh.GlobalMesh) :
  GlobalMesh_num_cell low high n = Ok m <->
  GlobalMesh_num_cell low high n <> Throw UniformMesh.sizes_not_equal /\
  m = UniformMesh.Build low high (elt0 (candidate_cell_sizes low high n)) /\
  forallb (passes m n) dims = true.
Proof.
  rewrite (GlobalMesh_num_cell_cases low high n _ _ _ _ eq_refl eq_refl eq_refl eq_refl).
  destruct (sizes_differ _ _ || sizes_differ _ _).
  - split; [discriminate | intros [H _]; contradiction H; reflexivity].
  - rewrite then_Ok_is_Ok, for_each_Ok, Forall_round_passes. split.
    + intros [H ->]. repeat split; [| exact H].
      intros E. apply then_Ok_is_Throw, for_each_first_failure in E;
        [| apply Throw_not_Ok].
      destruct E as [pre [d [post [_ [_ E]]]]].
      apply round_Throw in E. destruct E; discriminate.
    + intros [_ [-> H]]. auto.
Qed.

End UniformNumCell.

(** The spec's inconsistent cell counts: corners (0,0,0) and (10,10,20)
    with 5 cells in every dimension are rejected, the candidate of
    dimension K being 4 and that of dimensions I and J being 2.  With
    the high corner (10,10,10) the candidates are all 2, and the
    constructor yields the object whose cell size is 2. *)
Lemma num_cell_constructor_cell_sizes_witness :
  let low := Binary64.corner 0 0 0 in
  let n := Array3 5 5 5 in
  (UniformMesh.candidate_cell_sizes Binary64.prec Binary64.emax
     low (Binary64.corner 10 10 20) n = Binary64.corner 2 2 4 /\
   UniformMesh.GlobalMesh_num_cell Binary64.prec Binary64.emax
     low (Binary64.corner 10 10 20) n = Throw UniformMesh.sizes_not_equal) /\
  (UniformMesh.candidate_cell_sizes Binary64.prec Binary64.emax
     low (Binary64.corner 10 10 10) n = Binary64.corner 2 2 2 /\
   UniformMesh.GlobalMesh_num_cell Binary64.prec Binary64.emax
     low (Binary64.corner 10 10 10) n
   = Ok (UniformMesh.Build low (Binary64.corner 10 10 10) (Binary64.lit 2)) /\
   forall m,
     UniformMesh.GlobalMesh_num_cell Binary64.prec Binary64.emax
       low (Binary64.corner 10 10 10) n = Ok m ->
     m = UniformMesh.Build low (Binary64.corner 10 10 10) (Binary64.lit 2) /\
     UniformMesh.uniformCellSize m = Binary64.lit 2).
Proof.
  split.
  - split; [vm_compute; reflexivity |].
    apply (num_cell_constructor_cell_sizes Binary64.prec Binary64.emax
             (Binary64.corner 0 0 0) (Binary64.corner 10 10 20) (Array3 5 5 5)
             (Binary64.lit 2) (Binary64.lit 2) (Binary64.lit 4));
      vm_compute; reflexivity.
  - split; [vm_compute; reflexivity |].
    destruct (num_cell_constructor_cell_sizes Binary64.prec Binary64.emax
                (Binary64.corner 0 0 0) (Binary64.corner 10 10 10) (Array3 5 5 5)
                (Binary64.lit 2) (Binary64.lit 2) (Binary64.lit 2)
                eq_refl eq_refl eq_refl)
      as [_ [_ [Hgoes _]]].
    destruct Hgoes as [_ [Hyields [_ Hstored]]]; [vm_compute; reflexivity |].
    split; [| exact Hstored].
    apply Hyields. vm_compute. reflexivity.
Defined.

(** With corners (0,0,0) and (10,10,10) and 5 cells in every dimension
    all checks pass. *)
Lemma num_cell_constructor_checks_witness :
  let low := Binary64.corner 0 0 0 in
  let high := Binary64.corner 10 10 10 in
  let n := Array3 5 5 5 in
  UniformMesh.GlobalMesh_num_cell Binary64.prec Binary64.emax low high n
  <> Throw UniformMesh.sizes_not_equal /\
  UniformMesh.GlobalMesh_num_cell Binary64.prec Binary64.emax low high n
  = Ok (UniformMesh.Build low high (Binary64.lit 2)).
Proof.
  split; [vm_compute; discriminate |].
  apply (num_cell_constructor_checks Binary64.prec Binary64.emax
           (Binary64.corner 0 0 0) (Binary64.corner 10 10 10) (Array3 5 5 5)
           (Binary64.lit 2));
    vm_compute; [reflexivity | discriminate | reflexivity].
Defined.

(** C3 as stated fails: in single precision, with corners (0,0,0) and
    (1, 65536.75, 1) and the cell counts (1, 65536, 1), the candidates
    are 1, [1 + 96 * epsilon] and 1 and pass the comparison; dimension J
    is recomputed to 65537 cells, not the 65536 asked for, yet the
    failure is the "extent not evenly divisible" error, as the
    recomputed extent 65537 is off by 0.25.  The same happens in double
    precision with the cell size [2^-29]. *)
Lemma num_cell_mismatch_reported_as_not_divisible :
  (let low := Binary32.corner 0 0 0 in
   let high := Array3 (Binary32.lit 1)
                 (dyadic Binary32.prec Binary32.emax 262147 (-2)) (Binary32.lit 1) in
   let n := Array3 1 65536 1 in
   let this := UniformMesh.Build low high (Binary32.lit 1) in
   UniformMesh.GlobalMesh_num_cell Binary32.prec Binary32.emax low high n
   <> Throw UniformMesh.sizes_not_equal /\
   UniformMesh.globalNumCell Binary32.prec Binary32.emax this 1 = Some 65537 /\
   UniformMesh.num_cell_differs Binary32.prec Binary32.emax this n 1 = true /\
   UniformMesh.GlobalMesh_num_cell Binary32.prec Binary32.emax low high n
   = Throw UniformMesh.not_divisible /\
   UniformMesh.GlobalMesh_num_cell Binary32.prec Binary32.emax low high n
   <> Throw UniformMesh.num_cell_mismatch) /\
  (let low := Binary64.corner 0 0 0 in
   let size := dyadic Binary64.prec Binary64.emax 1 (-29) in
   let high := Array3 size
                 (dyadic Binary64.prec Binary64.emax 262147 (-31)) size in
   let n := Array3 1 65536 1 in
   let this := UniformMesh.Build low high size in
   UniformMesh.GlobalMesh_num_cell Binary64.prec Binary64.emax low high n
   <> Throw UniformMesh.sizes_not_equal /\
   UniformMesh.globalNumCell Binary64.prec Binary64.emax this 1 = Some 65537 /\
   UniformMesh.num_cell_differs Binary64.prec Binary64.emax this n 1 = true /\
   UniformMesh.GlobalMesh_num_cell Binary64.prec Binary64.emax low high n
   = Throw UniformMesh.not_divisible /\
   UniformMesh.GlobalMesh_num_cell Binary64.prec Binary64.emax low high n
   <> Throw UniformMesh.num_cell_mismatch).
Proof. vm_compute. repeat split; discriminate. Qed.

(** ** Scalars: rounding to an integer *)

(** [std::rint] followed by the conversion to [int] gives the integer
    nearest to the scalar, the even one at a tie, for every scalar whose
    mantissa fits the format; the quotients of the format are such
    scalars. *)

Lemma digits2_pos_bounds (p : positive) :
  2 ^ (Zpos (digits2_pos p) - 1) <= Zpos p < 2 ^ Zpos (digits2_pos p).
Proof.
  induction p as [p IH | p IH | ]; cbn [digits2_pos].
  - rewrite Pos2Z.inj_succ, Pos2Z.inj_xI.
    replace (Z.succ (Zpos (digits2_pos p)) - 1) with (Z.succ (Zpos (digits2_pos p) - 1)) by lia.
    rewrite !Z.pow_succ_r by lia.
    generalize dependent (2 ^ (Z.pos (digits2_pos p) - 1)).
    generalize dependent (2 ^ Z.pos (digits2_pos p)). intros; lia.
  - rewrite Pos2Z.inj_succ. change (Z.pos p~0) with (2 * Z.pos p).
    replace (Z.succ (Zpos (digits2_pos p)) - 1) with (Z.succ (Zpos (digits2_pos p) - 1)) by lia.
    rewrite !Z.pow_succ_r by lia.
    generalize dependent (2 ^ (Z.pos (digits2_pos p) - 1)).
    generalize dependent (2 ^ Z.pos (digits2_pos p)). intros; lia.
  - simpl. lia.
Qed.

Lemma digits2_pos_le (p : positive) (n : Z) :
  Zpos p < 2 ^ n -> Zpos (digits2_pos p) <= n.
Proof.
  intros H. destruct (digits2_pos_bounds p) as [Hlow _].
  destruct (Z_lt_le_dec n (Zpos (digits2_pos p))) as [Hlt | ]; [| assumption].
  exfalso. assert (2 ^ n <= 2 ^ (Zpos (digits2_pos p) - 1)); [| lia].
  destruct (Z_lt_le_dec n 0).
  - rewrite (Z.pow_neg_r 2 n) by lia. apply Z.pow_nonneg. lia.
  - apply Z.pow_le_mono_r; lia.
Qed.

Lemma Zdigits2_bound (m : Z) : 0 <= m -> m < 2 ^ Zdigits2 m.
Proof.
  destruct m as [| p | p]; intros H; try lia.
  - simpl. lia.
  - apply digits2_pos_bounds.
Qed.

(** An invariant of one step is one of the iteration. *)
Lemma iter_pos_invariant {A : Type} (f : A -> A) (Inv : Z -> A -> Prop) :
  (forall j x, 0 <= j -> Inv j x -> Inv (j + 1) (f x)) ->
  forall p j x, 0 <= j -> Inv j x -> Inv (j + Zpos p) (iter_pos f p x).
Proof.
  intros Hstep. induction p as [p IH | p IH | ]; intros j x Hj Hx; cbn [iter_pos].
  - replace (j + Zpos p~1) with (j + 1 + Zpos p + Zpos p) by lia.
    apply IH; [lia |]. apply IH; [lia |]. apply Hstep; assumption.
  - replace (j + Zpos p~0) with (j + Zpos p + Zpos p) by lia.
    apply IH; [lia |]. apply IH; assumption.
  - apply Hstep; assumption.
Qed.

Lemma shr_1_spec (st : shr_record) :
  0 <= shr_m st ->
  shr_m (shr_1 st) = shr_m st / 2 /\
  shr_r (shr_1 st) = Z.odd (shr_m st) /\
  shr_s (shr_1 st) = shr_r st || shr_s st.
Proof.
  destruct st as [m r s]. cbn [shr_m shr_r shr_s]. intros Hm.
  destruct m as [| [p | p | ] | p]; try lia; cbn [shr_1 shr_m shr_r shr_s];
    repeat split.
  - apply (Z.div_unique _ _ _ 1); lia.
  - apply (Z.div_unique _ _ _ 0); lia.
Qed.

Lemma shr_inv_step (a : Z) (j : Z) (st : shr_record) :
  0 <= a -> 0 <= j -> shr_inv a j st -> shr_inv a (j + 1) (shr_1 st).
Proof.
  intros Ha Hj [Hm [Hr Hs]].
  assert (Hpos : 0 <= shr_m st) by (rewrite Hm; apply Z.div_pos; [lia | apply Z.pow_pos_nonneg; lia]).
  destruct (shr_1_spec st Hpos) as [Hm' [Hr' Hs']].
  unfold shr_inv. rewrite Hm', Hr', Hs', Hm, Hr, Hs.
  replace (j + 1 - 1) with j by lia.
  assert (H0 : (0 <? j + 1) = true) by (apply Z.ltb_lt; lia). rewrite H0.
  repeat split.
  - rewrite Z.pow_add_r by lia. rewrite Z.pow_1_r.
    rewrite Z.div_div by (try apply Z.pow_pos_nonneg; lia). reflexivity.
  - destruct (Z.eq_dec j 0) as [-> | Hnz].
    + simpl. rewrite Z.mod_1_r. reflexivity.
    + assert (H1 : (0 <? j) = true) by (apply Z.ltb_lt; lia). rewrite H1. cbn [andb].
      assert (E : 2 ^ j = 2 ^ (j - 1) * 2).
      { replace j with (j - 1 + 1) at 1 by lia. rewrite Z.pow_add_r by lia. reflexivity. }
      assert (Hp : 0 < 2 ^ (j - 1)) by (apply Z.pow_pos_nonneg; lia).
      rewrite E. rewrite Z.rem_mul_r by lia.
      rewrite Zmod_odd.
      pose proof (Z.mod_pos_bound a (2 ^ (j - 1)) Hp).
      destruct (Z.odd (a / 2 ^ (j - 1))); destruct (Z.eqb_spec (a mod 2 ^ (j - 1)) 0);
        simpl; symmetry;
        first [apply negb_true_iff, Z.eqb_neq; lia | apply negb_false_iff, Z.eqb_eq; lia].
Qed.

Lemma shr_inv_init (a : Z) : shr_inv a 0 (shr_record_of_loc a loc_Exact).
Proof. unfold shr_inv. cbn. rewrite Z.div_1_r. auto. Qed.

Lemma shr_exact_spec (a e : Z) (p : positive) :
  0 <= a ->
  shr_inv a (Zpos p) (fst (shr (shr_record_of_loc a loc_Exact) e (Zpos p))).
Proof.
  intros Ha. cbn [shr fst].
  apply (iter_pos_invariant shr_1 (shr_inv a)
           (fun j x Hj => shr_inv_step a j x Ha Hj) p 0).
  - lia.
  - apply shr_inv_init.
Qed.

(** The mantissa after a right shift, whatever was shifted out before. *)
Lemma shr_m_spec (st : shr_record) (e : Z) (p : positive) :
  0 <= shr_m st ->
  shr_m (fst (shr st e (Zpos p))) = shr_m st / 2 ^ Zpos p.
Proof.
  intros Hm. cbn [shr fst].
  pose (Inv := fun (j : Z) (x : shr_record) => shr_m x = shr_m st / 2 ^ j).
  assert (H : Inv (0 + Zpos p) (iter_pos shr_1 p st)).
  { apply iter_pos_invariant.
    - intros j x Hj Hx. unfold Inv in *.
      assert (Hpos : 0 <= shr_m x)
        by (rewrite Hx; apply Z.div_pos; [lia | apply Z.pow_pos_nonneg; lia]).
      destruct (shr_1_spec x Hpos) as [-> _]. rewrite Hx.
      rewrite Z.pow_add_r by lia. rewrite Z.pow_1_r.
      rewrite Z.div_div by (try apply Z.pow_pos_nonneg; lia). reflexivity.
    - lia.
    - unfold Inv. rewrite Z.pow_0_r, Z.div_1_r. reflexivity. }
  exact H.
Qed.

Lemma shr_record_of_loc_m (m : Z) (l : location) : shr_m (shr_record_of_loc m l) = m.
Proof. destruct l as [| []]; reflexivity. Qed.

Section ScalarRounding.

Variables prec emax : Z.
Hypothesis Hprec : 0 < prec.
Hypothesis Hemax : prec < emax.

(** What [shr_fexp] leaves has no more digits than the format holds. *)
Lemma shr_fexp_bound (m e : Z) (l : location) :
  0 <= m ->
  0 <= shr_m (fst (shr_fexp prec emax m e l)) < 2 ^ prec.
Proof.
  intros Hm. unfold shr_fexp.
  pose proof (Zdigits2_bound m Hm) as Hd.
  assert (Hfexp : Zdigits2 m + e - prec <= fexp prec emax (Zdigits2 m + e))
    by (unfold fexp; lia).
  assert (Hdig : 0 <= Zdigits2 m) by (destruct m; simpl; lia).
  destruct (fexp prec emax (Zdigits2 m + e) - e) as [| p | p] eqn:Hsh.
  - cbn [shr fst]. rewrite shr_record_of_loc_m. split; [lia |].
    apply Z.lt_le_trans with (1 := Hd). apply Z.pow_le_mono_r; lia.
  - rewrite shr_m_spec by (rewrite shr_record_of_loc_m; lia).
    rewrite shr_record_of_loc_m. split.
    + apply Z.div_pos; [lia | apply Z.pow_pos_nonneg; lia].
    + apply Z.div_lt_upper_bound; [apply Z.pow_pos_nonneg; lia |].
      rewrite <- Z.pow_add_r by lia.
      apply Z.lt_le_trans with (1 := Hd). apply Z.pow_le_mono_r; lia.
  - cbn [shr fst]. rewrite shr_record_of_loc_m. split; [lia |].
    apply Z.lt_le_trans with (1 := Hd). apply Z.pow_le_mono_r; lia.
Qed.

Lemma round_nearest_even_bound (m : Z) (l : location) :
  0 <= m -> m <= round_nearest_even m l <= m + 1.
Proof.
  intros Hm. destruct l as [| []]; cbn [round_nearest_even]; try lia.
  destruct (Z.even m); lia.
Qed.

Lemma binary_round_aux_bounded (s : bool) (m e : Z) (l : location) :
  0 <= m ->
  mantissa_bounded prec (binary_round_aux prec emax s m e l) = true.
Proof.
  intros Hm. unfold binary_round_aux.
  pose proof (shr_fexp_bound m e l Hm) as H1.
  destruct (shr_fexp prec emax m e l) as [mrs' e']. cbn [fst] in H1.
  pose proof (round_nearest_even_bound (shr_m mrs') (loc_of_shr_record mrs')
                ltac:(lia)) as H2.
  pose proof (shr_fexp_bound (round_nearest_even (shr_m mrs') (loc_of_shr_record mrs'))
                e' loc_Exact ltac:(lia)) as H3.
  destruct (shr_fexp prec emax _ e' loc_Exact) as [mrs'' e'']. cbn [fst] in H3.
  destruct (shr_m mrs'') as [| p | p]; try reflexivity.
  destruct (e'' <=? emax - prec); [| reflexivity].
  cbn [mantissa_bounded]. apply Z.leb_le. apply digits2_pos_le. lia.
Qed.

Lemma div_bounded (x y : Scalar) : mantissa_bounded prec (div prec emax x y) = true.
Proof.
  unfold div.
  destruct x as [sx | sx | | sx mx ex], y as [sy | sy | | sy my ey]; try reflexivity.
  cbn [SFdiv].
  destruct (SFdiv_core_binary prec emax (Z.pos mx) ex (Z.pos my) ey) as [[mz ez] lz] eqn:Hcore.
  apply binary_round_aux_bounded.
  unfold SFdiv_core_binary in Hcore.
  set (m' := match _ - _ - _ with Z.pos _ => _ | 0 => Z.pos mx | Z.neg _ => 0 end) in Hcore.
  assert (Hm' : 0 <= m').
  { unfold m'. destruct (_ - _ - _); try lia. rewrite Z.shiftl_mul_pow2 by lia.
    apply Z.mul_nonneg_nonneg; [lia | apply Z.pow_nonneg; lia]. }
  pose proof (Z_div_mod m' (Z.pos my) ltac:(lia)) as Hdm.
  destruct (Z.div_eucl m' (Z.pos my)) as [q r]. injection Hcore as <- _ _.
  destruct Hdm as [Hq Hr]. nia.
Qed.


Lemma iter_xO_spec (p d : positive) :
  Zpos (Pos.iter xO p d) = Zpos p * 2 ^ Zpos d /\
  Zpos (digits2_pos (Pos.iter xO p d)) = Zpos (digits2_pos p) + Zpos d.
Proof.
  induction d as [| d IH] using Pos.peano_ind.
  - cbn. split; lia.
  - rewrite Pos.iter_succ. destruct IH as [IH1 IH2]. cbn [digits2_pos].
    change (Z.pos (Pos.iter xO p d)~0) with (2 * Z.pos (Pos.iter xO p d)).
    rewrite !Pos2Z.inj_succ, IH1, IH2, Z.pow_succ_r by lia.
    split; lia.
Qed.


(** An integer that fits the format is converted to it and back exactly. *)
Lemma truncate_binary_round (s : bool) (p : positive) (z : Z) :
  Zpos p < 2 ^ prec ->
  truncate (binary_round prec emax s p 0) = Some z ->
  z = cond_Zopp s (Zpos p).
Proof.
  intros Hp. pose proof (digits2_pos_le p prec Hp) as Hd.
  unfold binary_round.
  set (e1 := fexp prec emax (Z.pos (digits2_pos p) + 0)).
  assert (He1 : e1 <= 0) by (unfold e1, fexp, emin; lia).
  assert (Hfexp : fexp prec emax (Z.pos (digits2_pos p)) = e1)
    by (unfold e1; rewrite Z.add_0_r; reflexivity).
  unfold shl_align.
  destruct (e1 - 0) as [| d | d] eqn:Hsh; try lia.
  - assert (E : e1 = 0) by lia.
    unfold binary_round_aux, shr_fexp. cbn [Zdigits2].
    rewrite Z.add_0_r, Hfexp, E. cbn [Z.sub Z.opp Z.add shr shr_record_of_loc
      loc_of_shr_record round_nearest_even shr_m Zdigits2].
    rewrite ?Z.add_0_r, Hfexp, E. cbn [Z.sub Z.opp Z.add shr shr_m].
    destruct (0 <=? emax - prec); [| discriminate].
    cbn [truncate]. cbn. intros H. injection H as <-. reflexivity.
  - destruct (iter_xO_spec p d) as [Hval Hdig].
    assert (E : e1 = Z.neg d) by lia.
    assert (Hsum : Z.pos (digits2_pos (Pos.iter xO p d)) + e1 = Z.pos (digits2_pos p))
      by (rewrite Hdig, E; lia).
    unfold binary_round_aux, shr_fexp. cbn [Zdigits2].
    rewrite Hsum, Hfexp, Z.sub_diag. cbn [shr shr_record_of_loc
      loc_of_shr_record round_nearest_even shr_m Zdigits2].
    rewrite Hsum, Hfexp, Z.sub_diag. cbn [shr shr_m].
    destruct (e1 <=? emax - prec); [| discriminate].
    cbn [truncate]. rewrite E. cbn [Z.leb Z.compare Z.opp].
    intros H. injection H as <-. f_equal.
    rewrite Z.shiftr_div_pow2 by lia. rewrite Hval.
    apply Z.div_mul. apply Z.pow_nonzero; lia.
Qed.

Lemma truncate_binary_normalize (s : bool) (n z : Z) :
  0 <= n < 2 ^ prec ->
  truncate (binary_normalize prec emax (cond_Zopp s n) 0 s) = Some z ->
  z = cond_Zopp s n.
Proof.
  intros Hn. unfold binary_normalize.
  destruct n as [| p | p]; try lia.
  - destruct s; cbn; intros H; injection H as <-; reflexivity.
  - destruct s; cbn [cond_Zopp Z.opp]; apply truncate_binary_round; lia.
Qed.


(** Rounding the shifted mantissa gives the nearest integer, the even
    one at a tie. *)
Lemma round_nearest_even_nearest (a j : Z) (st : shr_record) :
  0 <= a -> 0 < j -> shr_inv a j st ->
  let n := round_nearest_even (shr_m st) (loc_of_shr_record st) in
  (2 * Z.abs (a - n * 2 ^ j) < 2 ^ j \/
   (2 * Z.abs (a - n * 2 ^ j) = 2 ^ j /\ Z.even n = true)) /\
  0 <= n /\ 2 * n <= a + 2.
Proof.
  intros Ha Hj [Hm [Hr Hs]]. cbv zeta.
  assert (H0 : (0 <? j) = true) by (apply Z.ltb_lt; lia).
  rewrite H0 in Hr, Hs. cbn [andb] in Hr, Hs.
  set (half := 2 ^ (j - 1)) in *.
  assert (Hhalf : 0 < half) by (apply Z.pow_pos_nonneg; lia).
  assert (ED : 2 ^ j = half * 2).
  { unfold half. replace j with (j - 1 + 1) at 1 by lia.
    rewrite Z.pow_add_r by lia. reflexivity. }
  rewrite ED in *.
  pose proof (Z.div_mod a half ltac:(lia)) as Ea.
  pose proof (Z.mod_pos_bound a half Hhalf) as Hr2.
  rewrite <- Z.div_div in Hm by lia.
  pose proof (Z.div_mod (a / half) 2 ltac:(lia)) as Eh.
  rewrite Zmod_odd in Eh.
  assert (Hh : 0 <= a / half) by (apply Z.div_pos; lia).
  assert (Hq : 0 <= a / half / 2) by (apply Z.div_pos; lia).
  destruct st as [m r s]. cbn [shr_m shr_r shr_s] in *. subst m r s.
  set (h := a / half) in *. set (q := h / 2) in *. set (r2 := a mod half) in *.
  clearbody h q r2.
  destruct (Z.odd h); destruct (Z.eqb_spec r2 0) as [E0 | N0];
    cbn [negb loc_of_shr_record round_nearest_even].
  - destruct (Z.even q) eqn:Heven.
    + split; [right; split; [nia | exact Heven] | nia].
    + split; [right; split; [nia |] | nia].
      rewrite Z.add_1_r, Z.even_succ, <- Z.negb_even, Heven. reflexivity.
  - split; [left; nia | nia].
  - split; [left; nia | nia].
  - split; [left; nia | nia].
Qed.


Lemma rint_nearest (x : Scalar) (k : Z) :
  mantissa_bounded prec x = true ->
  int_of_scalar (rint prec emax x) = Some k ->
  nearest_integer x k = true.
Proof.
  intros Hb Hk. unfold int_of_scalar in Hk.
  destruct (truncate (rint prec emax x)) as [z | ] eqn:Ht; [| discriminate].
  destruct (in_int_range z); [| discriminate]. injection Hk as ->.
  destruct x as [s | s | | s m e]; try discriminate.
  - cbn in Ht. injection Ht as <-. reflexivity.
  - cbn [mantissa_bounded] in Hb. apply Z.leb_le in Hb.
    assert (Hm : Z.pos m < 2 ^ prec).
    { destruct (digits2_pos_bounds m) as [_ H].
      apply Z.lt_le_trans with (1 := H). apply Z.pow_le_mono_r; lia. }
    unfold nearest_integer. cbn [numerator denominator].
    unfold rint in Ht. destruct (Z.leb_spec 0 e) as [He | He].
    + cbn [truncate] in Ht.
      destruct (Z.leb_spec 0 e) as [_ | Hc]; [| lia]. injection Ht as <-.
      rewrite Z.shiftl_mul_pow2 by lia.
      rewrite Z.max_l, Z.max_r by lia. rewrite Z.pow_0_r.
      replace (cond_Zopp s (Z.pos m * 2 ^ e) - cond_Zopp s (Z.pos m * 2 ^ e) * 1)
        with 0 by lia.
      reflexivity.
    + destruct (- e) as [| p | p] eqn:Hneg; try lia.
      pose proof (shr_exact_spec (Z.pos m) e p ltac:(lia)) as Hinv.
      destruct (shr (shr_record_of_loc (Z.pos m) loc_Exact) e (Z.pos p)) as [mrs e'].
      cbn [fst] in Hinv.
      destruct (round_nearest_even_nearest (Z.pos m) (Z.pos p) mrs
                  ltac:(lia) ltac:(lia) Hinv) as [Hnear [Hn0 Hn1]].
      set (n := round_nearest_even (shr_m mrs) (loc_of_shr_record mrs)) in *.
      assert (Hn : 0 <= n < 2 ^ prec).
      { split; [lia |].
        replace prec with (Z.succ (prec - 1)) in Hm |- * by lia.
        rewrite Z.pow_succ_r in Hm |- * by lia.
        assert (0 < 2 ^ (prec - 1)) by (apply Z.pow_pos_nonneg; lia). lia. }
      apply (truncate_binary_normalize s n k Hn) in Ht.
      subst k. rewrite Z.max_r, Z.max_l by lia. rewrite Z.pow_0_r, Z.mul_1_r.
      assert (Eabs : Z.abs (cond_Zopp s (Z.pos m) - cond_Zopp s n * 2 ^ Z.pos p)
                     = Z.abs (Z.pos m - n * 2 ^ Z.pos p))
        by (destruct s; cbn [cond_Zopp]; lia).
      assert (Eeven : Z.even (cond_Zopp s n) = Z.even n)
        by (destruct s; cbn [cond_Zopp]; [apply Z.even_opp | reflexivity]).
      rewrite Eabs, Eeven.
      destruct Hnear as [Hlt | [Heq Hev]].
      * apply orb_true_intro. left. apply Z.ltb_lt. exact Hlt.
      * apply orb_true_intro. right. rewrite Hev, andb_true_r.
        apply Z.eqb_eq. exact Heq.
Qed.

End ScalarRounding.

(** ** Uniform mesh: what a constructed object answers *)

Section UniformQueries.

Variables prec emax : Z.

Local Abbreviation sub := (sub prec emax).
Local Abbreviation div := (div prec emax).
Local Abbreviation rint := (rint prec emax).
Local Abbreviation lowCorner := UniformMesh.lowCorner.
Local Abbreviation highCorner := UniformMesh.highCorner.
Local Abbreviation extent := (UniformMesh.extent prec emax).
Local Abbreviation globalNumCell := (UniformMesh.globalNumCell prec emax).
Local Abbreviation uniformCellSize := UniformMesh.uniformCellSize.
Local Abbreviation GlobalMesh_cell_size := (UniformMesh.GlobalMesh_cell_size prec emax).
Local Abbreviation GlobalMesh_num_cell := (UniformMesh.GlobalMesh_num_cell prec emax).

Implicit Types (this m : UniformMesh.GlobalMesh) (d : Z).

(** The extent is the difference of the corners, and the number of cells
    is computed from it and the cell size. *)
Lemma extent_eq this d (h l : Scalar) :
  highCorner this d = Some h -> lowCorner this d = Some l ->
  extent this d = Some (sub h l).
Proof. intros Hh Hl. unfold UniformMesh.extent. rewrite Hh, Hl. reflexivity. Qed.

Lemma globalNumCell_eq this d (h l : Scalar) :
  highCorner this d = Some h -> lowCorner this d = Some l ->
  globalNumCell this d = int_of_scalar (rint (div (sub h l) (uniformCellSize this))).
Proof.
  intros Hh Hl. unfold UniformMesh.globalNumCell.
  rewrite (extent_eq this d h l Hh Hl). reflexivity.
Qed.

Lemma corners_defined this d :
  In d dims -> exists h l, highCorner this d = Some h /\ lowCorner this d = Some l.
Proof.
  intros [<- | [<- | [<- | []]]]; eexists; eexists; split; reflexivity.
Qed.

(** A dimension that passes the evenly-divisible check has a number of
    cells. *)
Lemma within_tolerance_globalNumCell this d :
  UniformMesh.within_tolerance prec emax this d = true ->
  exists k, globalNumCell this d = Some k.
Proof.
  unfold UniformMesh.within_tolerance, UniformMesh.divisibility_gap,
    UniformMesh.globalNumCell.
  destruct (extent this d) as [e | ]; simpl; [| discriminate].
  destruct (int_of_scalar _) as [k | ]; simpl; [| discriminate].
  intros _. exists k. reflexivity.
Qed.

Lemma constructed_within m (low high : array3 Scalar) (cell_size : Scalar)
    (n : array3 Z) :
  GlobalMesh_cell_size low high cell_size = Ok m \/
  GlobalMesh_num_cell low high n = Ok m ->
  forallb (UniformMesh.within_tolerance prec emax m) dims = true.
Proof.
  intros [H | H].
  - apply GlobalMesh_cell_size_Ok in H. apply H.
  - apply GlobalMesh_num_cell_Ok in H. destruct H as [_ [_ H]].
    rewrite forallb_forall in *. intros d Hd. specialize (H d Hd).
    unfold UniformMesh.passes in H. apply andb_prop in H. apply H.
Qed.

(** C4: for an object made by either constructor and a dimension [d] of
    0, 1, 2, [extent(d)] is [highCorner(d) - lowCorner(d)] and
    [globalNumCell(d)] is [round(extent(d) / cell_size)]: the integer
    nearest to the quotient, the even one when the quotient is half way
    between two integers.  It is computed at the call from the stored
    corners and the stored cell size, as the conversion to [int] of
    [std::rint] of the quotient. *)
Theorem uniform_extent_and_globalNumCell m (low high : array3 Scalar)
    (cell_size : Scalar) (n : array3 Z) d :
  0 < prec -> prec < emax ->
  GlobalMesh_cell_size low high cell_size = Ok m \/
  GlobalMesh_num_cell low high n = Ok m ->
  In d dims ->
  exists (h l : Scalar) (k : Z),
    highCorner m d = Some h /\
    lowCorner m d = Some l /\
    extent m d = Some (sub h l) /\
    globalNumCell m d = Some k /\
    nearest_integer (div (sub h l) (uniformCellSize m)) k = true /\
    int_of_scalar (rint (div (sub h l) (uniformCellSize m))) = Some k /\
    array_get (UniformMesh._global_high_corner m) d = Some h /\
    array_get (UniformMesh._global_low_corner m) d = Some l.
Proof.
  intros Hprec Hemax Hm Hd.
  destruct (corners_defined m d Hd) as [h [l [Hh Hl]]].
  pose proof (constructed_within m low high cell_size n Hm) as Hall.
  rewrite forallb_forall in Hall.
  destruct (within_tolerance_globalNumCell m d (Hall d Hd)) as [k Hk].
  assert (Hint : int_of_scalar (rint (div (sub h l) (uniformCellSize m))) = Some k)
    by (rewrite <- Hk; symmetry; apply globalNumCell_eq; assumption).
  exists h, l, k. repeat split; auto.
  - apply extent_eq; assumption.
  - apply (rint_nearest prec emax Hprec Hemax); [| exact Hint].
    apply div_bounded. exact Hprec.
Qed.

(** C9: an object made by either constructor holds the supplied corner
    arrays as they were supplied, so [lowCorner(d)] and [highCorner(d)]
    are the supplied [low_corner[d]] and [high_corner[d]]; made by the
    cell size constructor it holds the supplied cell size, which
    [uniformCellSize] returns. *)
Theorem uniform_constructors_store_arguments m (low high : array3 Scalar)
    (cell_size : Scalar) (n : array3 Z) :
  (GlobalMesh_cell_size low high cell_size = Ok m ->
   UniformMesh._global_low_corner m = low /\
   UniformMesh._global_high_corner m = high /\
   uniformCellSize m = cell_size /\
   forall d, lowCorner m d = array_get low d /\
             highCorner m d = array_get high d) /\
  (GlobalMesh_num_cell low high n = Ok m ->
   UniformMesh._global_low_corner m = low /\
   UniformMesh._global_high_corner m = high /\
   forall d, lowCorner m d = array_get low d /\
             highCorner m d = array_get high d).
Proof.
  split; intros H.
  - apply GlobalMesh_cell_size_Ok in H. destruct H as [-> _].
    repeat split.
  - apply GlobalMesh_num_cell_Ok in H. destruct H as [_ [-> _]].
    repeat split.
Qed.

End UniformQueries.

(** ** Uniform mesh: the meshes of the spec *)

(** The spec's mesh by cell size: corners (0,0,0) and (10,10,10) with
    cell size 2 has 5 cells and extent 10 in every dimension, in double
    and in single precision. *)
Lemma uniform_by_cell_size_example :
  (exists m,
      UniformMesh.GlobalMesh_cell_size Binary64.prec Binary64.emax
        (Binary64.corner 0 0 0) (Binary64.corner 10 10 10) (Binary64.lit 2) = Ok m /\
      map (UniformMesh.globalNumCell Binary64.prec Binary64.emax m) dims
      = [Some 5; Some 5; Some 5] /\
      map (UniformMesh.extent Binary64.prec Binary64.emax m) dims
      = [Some (Binary64.lit 10); Some (Binary64.lit 10); Some (Binary64.lit 10)]) /\
  (exists m,
      UniformMesh.GlobalMesh_cell_size Binary32.prec Binary32.emax
        (Binary32.corner 0 0 0) (Binary32.corner 10 10 10) (Binary32.lit 2) = Ok m /\
      map (UniformMesh.globalNumCell Binary32.prec Binary32.emax m) dims
      = [Some 5; Some 5; Some 5] /\
      map (UniformMesh.extent Binary32.prec Binary32.emax m) dims
      = [Some (Binary32.lit 10); Some (Binary32.lit 10); Some (Binary32.lit 10)]).
Proof.
  split; eexists; (split; [vm_compute; reflexivity |]); vm_compute; auto.
Qed.

(** A mesh whose quotient is not an integer: with corners 0 and
    [2 - 64 * epsilon] and cell size 1 the quotient is just below 2 and
    the mesh has 2 cells, where dropping the fraction would give 1. *)
Lemma uniform_extent_and_globalNumCell_witness :
  let high := dyadic Binary64.prec Binary64.emax (2 ^ 47 - 1) (- 46) in
  let m := UniformMesh.Build (Binary64.corner 0 0 0) (Array3 high high high)
             (Binary64.lit 1) in
  0 < Binary64.prec /\
  Binary64.prec < Binary64.emax /\
  UniformMesh.GlobalMesh_cell_size Binary64.prec Binary64.emax
    (Binary64.corner 0 0 0) (Array3 high high high) (Binary64.lit 1) = Ok m /\
  truncate (div Binary64.prec Binary64.emax high (Binary64.lit 1)) = Some 1 /\
  exists (h l : Scalar) (k : Z),
    k = 2 /\
    UniformMesh.highCorner m 0 = Some h /\
    UniformMesh.lowCorner m 0 = Some l /\
    UniformMesh.extent Binary64.prec Binary64.emax m 0
    = Some (sub Binary64.prec Binary64.emax h l) /\
    UniformMesh.globalNumCell Binary64.prec Binary64.emax m 0 = Some k /\
    nearest_integer
      (div Binary64.prec Binary64.emax (sub Binary64.prec Binary64.emax h l)
         (UniformMesh.uniformCellSize m)) k = true /\
    int_of_scalar
      (rint Binary64.prec Binary64.emax
         (div Binary64.prec Binary64.emax (sub Binary64.prec Binary64.emax h l)
            (UniformMesh.uniformCellSize m))) = Some k /\
    array_get (UniformMesh._global_high_corner m) 0 = Some h /\
    array_get (UniformMesh._global_low_corner m) 0 = Some l.
Proof.
  intros high m.
  assert (Hprec : 0 < Binary64.prec) by reflexivity.
  assert (Hemax : Binary64.prec < Binary64.emax) by reflexivity.
  assert (Hm : UniformMesh.GlobalMesh_cell_size Binary64.prec Binary64.emax
                 (Binary64.corner 0 0 0) (Array3 high high high) (Binary64.lit 1)
               = Ok m) by (vm_compute; reflexivity).
  split; [exact Hprec |]. split; [exact Hemax |]. split; [exact Hm |].
  split; [vm_compute; reflexivity |].
  destruct (uniform_extent_and_globalNumCell Binary64.prec Binary64.emax m
              (Binary64.corner 0 0 0) (Array3 high high high) (Binary64.lit 1)
              (Array3 2 2 2) 0 Hprec Hemax (or_introl Hm) (or_introl eq_refl))
    as [h [l [k H]]].
  exists h, l, k. split; [| exact H].
  destruct H as [_ [_ [_ [Hk _]]]].
  assert (H2 : UniformMesh.globalNumCell Binary64.prec Binary64.emax m 0 = Some 2)
    by (vm_compute; reflexivity).
  rewrite H2 in Hk. injection Hk as <-. reflexivity.
Defined.

Lemma uniform_constructors_store_arguments_witness :
  let low := Binary64.corner 0 0 0 in
  let high := Binary64.corner 10 10 10 in
  let m := UniformMesh.Build low high (Binary64.lit 2) in
  (UniformMesh._global_low_corner m = low /\
   UniformMesh._global_high_corner m = high /\
   UniformMesh.uniformCellSize m = Binary64.lit 2 /\
   forall d, UniformMesh.lowCorner m d = array_get low d /\
             UniformMesh.highCorner m d = array_get high d) /\
  (UniformMesh._global_low_corner m = low /\
   UniformMesh._global_high_corner m = high /\
   forall d, UniformMesh.lowCorner m d = array_get low d /\
             UniformMesh.highCorner m d = array_get high d).
Proof.
  pose proof (uniform_constructors_store_arguments Binary64.prec Binary64.emax
                (UniformMesh.Build (Binary64.corner 0 0 0) (Binary64.corner 10 10 10)
                   (Binary64.lit 2))
                (Binary64.corner 0 0 0) (Binary64.corner 10 10 10) (Binary64.lit 2)
                (Array3 5 5 5)) as [Hsize Hnum].
  split.
  - apply Hsize. vm_compute. reflexivity.
  - apply Hnum. vm_compute. reflexivity.
Defined.

(** C7: with corners (0,0,0) and (10,10,10) and 5 cells in every
    dimension the number of cells constructor yields a mesh of cell size
    2, and the cell size constructor with the same corners and cell size
    2 yields a mesh that answers every query alike, in double and in
    single precision. *)
Theorem uniform_round_trip_by_num_cell :
  (exists m1 m2,
      UniformMesh.GlobalMesh_num_cell Binary64.prec Binary64.emax
        (Binary64.corner 0 0 0) (Binary64.corner 10 10 10) (Array3 5 5 5) = Ok m1 /\
      UniformMesh.uniformCellSize m1 = Binary64.lit 2 /\
      UniformMesh.GlobalMesh_cell_size Binary64.prec Binary64.emax
        (Binary64.corner 0 0 0) (Binary64.corner 10 10 10) (Binary64.lit 2) = Ok m2 /\
      UniformMesh.uniformCellSize m1 = UniformMesh.uniformCellSize m2 /\
      forall d,
        UniformMesh.lowCorner m1 d = UniformMesh.lowCorner m2 d /\
        UniformMesh.highCorner m1 d = UniformMesh.highCorner m2 d /\
        UniformMesh.extent Binary64.prec Binary64.emax m1 d
        = UniformMesh.extent Binary64.prec Binary64.emax m2 d /\
        UniformMesh.globalNumCell Binary64.prec Binary64.emax m1 d
        = UniformMesh.globalNumCell Binary64.prec Binary64.emax m2 d) /\
  (exists m1 m2,
      UniformMesh.GlobalMesh_num_cell Binary32.prec Binary32.emax
        (Binary32.corner 0 0 0) (Binary32.corner 10 10 10) (Array3 5 5 5) = Ok m1 /\
      UniformMesh.uniformCellSize m1 = Binary32.lit 2 /\
      UniformMesh.GlobalMesh_cell_size Binary32.prec Binary32.emax
        (Binary32.corner 0 0 0) (Binary32.corner 10 10 10) (Binary32.lit 2) = Ok m2 /\
      UniformMesh.uniformCellSize m1 = UniformMesh.uniformCellSize m2 /\
      forall d,
        UniformMesh.lowCorner m1 d = UniformMesh.lowCorner m2 d /\
        UniformMesh.highCorner m1 d = UniformMesh.highCorner m2 d /\
        UniformMesh.extent Binary32.prec Binary32.emax m1 d
        = UniformMesh.extent Binary32.prec Binary32.emax m2 d /\
        UniformMesh.globalNumCell Binary32.prec Binary32.emax m1 d
        = UniformMesh.globalNumCell Binary32.prec Binary32.emax m2 d).
Proof.
  split; eexists; eexists;
    (split; [vm_compute; reflexivity |]);
    (split; [vm_compute; reflexivity |]);
    (split; [vm_compute; reflexivity |]);
    (split; [reflexivity |]);
    intros d; repeat split.
Qed.

(** C8: the number of cells constructor compares the candidate of
    dimension I with those of J and of K, never those of J and K with
    each other.  With corners (0,0,0) and [(1, 1 - 64 * epsilon,
    1 + 64 * epsilon)] and one cell in every dimension, the candidates of
    J and K are each within [100 * epsilon] of that of I and
    [128 * epsilon] apart, and the constructor yields a mesh, in double
    and in single precision. *)
Theorem num_cell_constructor_accepts_J_K_apart :
  (exists (low high : array3 Scalar) (n : array3 Z) (m : UniformMesh.GlobalMesh)
          (size_i size_j size_k : Scalar),
      let sizes :=
        UniformMesh.candidate_cell_sizes Binary64.prec Binary64.emax low high n in
      array_get sizes Dim.I = Some size_i /\
      array_get sizes Dim.J = Some size_j /\
      array_get sizes Dim.K = Some size_k /\
      UniformMesh.sizes_differ Binary64.prec Binary64.emax size_j size_k = true /\
      UniformMesh.sizes_differ Binary64.prec Binary64.emax size_i size_j = false /\
      UniformMesh.sizes_differ Binary64.prec Binary64.emax size_i size_k = false /\
      UniformMesh.GlobalMesh_num_cell Binary64.prec Binary64.emax low high n = Ok m) /\
  (exists (low high : array3 Scalar) (n : array3 Z) (m : UniformMesh.GlobalMesh)
          (size_i size_j size_k : Scalar),
      let sizes :=
        UniformMesh.candidate_cell_sizes Binary32.prec Binary32.emax low high n in
      array_get sizes Dim.I = Some size_i /\
      array_get sizes Dim.J = Some size_j /\
      array_get sizes Dim.K = Some size_k /\
      UniformMesh.sizes_differ Binary32.prec Binary32.emax size_j size_k = true /\
      UniformMesh.sizes_differ Binary32.prec Binary32.emax size_i size_j = false /\
      UniformMesh.sizes_differ Binary32.prec Binary32.emax size_i size_k = false /\
      UniformMesh.GlobalMesh_num_cell Binary32.prec Binary32.emax low high n = Ok m).
Proof.
  split.
  - exists (Binary64.corner 0 0 0),
      (Array3 (Binary64.lit 1)
         (dyadic Binary64.prec Binary64.emax (2 ^ 46 - 1) (- 46))
         (dyadic Binary64.prec Binary64.emax (2 ^ 46 + 1) (- 46))),
      (Array3 1 1 1).
    eexists. eexists. eexists. eexists.
    repeat (split; [vm_compute; reflexivity |]).
    vm_compute. reflexivity.
  - exists (Binary32.corner 0 0 0),
      (Array3 (Binary32.lit 1)
         (dyadic Binary32.prec Binary32.emax (2 ^ 17 - 1) (- 17))
         (dyadic Binary32.prec Binary32.emax (2 ^ 17 + 1) (- 17))),
      (Array3 1 1 1).
    eexists. eexists. eexists. eexists.
    repeat (split; [vm_compute; reflexivity |]).
    vm_compute. reflexivity.
Qed.

(** ** Non-uniform mesh *)

Lemma back_nth_error {T : Type} (v : list T) :
  back v = nth_error v (Nat.pred (List.length v)).
Proof.
  induction v as [| x v IH]; [reflexivity |].
  destruct v as [| y v]; [reflexivity |].
  change (back (x :: y :: v)) with (back (y :: v)). rewrite IH. reflexivity.
Qed.

(** A number of cells that fits an [int] is not changed by the
    conversions. *)
Lemma wrap_int_size_t (z : Z) :
  0 <= z <= INT_MAX -> wrap_int (z mod 2 ^ 64) = z.
Proof.
  unfold INT_MAX, wrap_int. intros H.
  rewrite (Z.mod_small z) by lia.
  rewrite Z.mod_small by lia. lia.
Qed.

Section NonUniformQueries.

Variables prec emax : Z.

Local Abbreviation sub := (sub prec emax).
Local Abbreviation lowCorner := NonUniformMesh.lowCorner.
Local Abbreviation highCorner := NonUniformMesh.highCorner.
Local Abbreviation extent := (NonUniformMesh.extent prec emax).
Local Abbreviation globalNumCell := NonUniformMesh.globalNumCell.
Local Abbreviation nonUniformEdge := NonUniformMesh.nonUniformEdge.
Local Abbreviation GlobalMesh_edges := NonUniformMesh.GlobalMesh_edges.

(** C5 (amended): for a non-uniform mesh and a dimension [d] of 0, 1, 2
    whose edge sequence has at least 2 and at most [2^31] elements,
    [lowCorner(d)] is the first element of [edges[d]], [highCorner(d)]
    the last, [extent(d)] their difference, and [globalNumCell(d)] the
    length of [edges[d]] minus 1. *)
Theorem nonuniform_queries (this : NonUniformMesh.GlobalMesh) (d : Z)
    (edges : list Scalar) :
  In d dims ->
  array_get (NonUniformMesh._edges this) d = Some edges ->
  2 <= size edges <= 2 ^ 31 ->
  exists first last : Scalar,
    nth_error edges 0 = Some first /\
    nth_error edges (Nat.pred (List.length edges)) = Some last /\
    lowCorner this d = Some first /\
    highCorner this d = Some last /\
    extent this d = Some (sub last first) /\
    globalNumCell this d = Some (size edges - 1).
Proof.
  intros _ He Hsize.
  assert (Hlow : lowCorner this d = nth_error edges 0).
  { unfold NonUniformMesh.lowCorner. rewrite He. simpl.
    destruct edges; reflexivity. }
  assert (Hhigh : highCorner this d
                  = nth_error edges (Nat.pred (List.length edges))).
  { unfold NonUniformMesh.highCorner. rewrite He. simpl. apply back_nth_error. }
  destruct (nth_error edges 0) as [first | ] eqn:Hfirst.
  2:{ apply nth_error_None in Hfirst. unfold size in Hsize. lia. }
  destruct (nth_error edges (Nat.pred (List.length edges))) as [last | ] eqn:Hlast.
  2:{ apply nth_error_None in Hlast. unfold size in Hsize. lia. }
  exists first, last. repeat split; auto.
  - unfold NonUniformMesh.extent. rewrite Hhigh, Hlow. reflexivity.
  - unfold NonUniformMesh.globalNumCell. rewrite He. simpl.
    rewrite wrap_int_size_t; [reflexivity | unfold INT_MAX; lia].
Qed.

(** C6: the constructor of the non-uniform mesh yields an object for
    every three edge sequences, monotonic or not, and [nonUniformEdge(d)]
    of that object is the sequence supplied for dimension [d]. *)
Theorem nonuniform_constructor_stores_edges (i_edges j_edges k_edges : list Scalar) :
  exists m,
    GlobalMesh_edges i_edges j_edges k_edges = Ok m /\
    nonUniformEdge m Dim.I = Some i_edges /\
    nonUniformEdge m Dim.J = Some j_edges /\
    nonUniformEdge m Dim.K = Some k_edges.
Proof.
  exists (NonUniformMesh.Build (Array3 i_edges j_edges k_edges)).
  repeat split.
Qed.

End NonUniformQueries.

(** ** Queries of both variants *)

Section Queries.

Variables prec emax : Z.

(** C10: a query of either variant hands the object on as it received
    it, so no sequence of queries changes a stored field, and a query
    answers the same the second time and after any sequence of other
    queries. *)
Theorem queries_are_pure :
  (forall (m : UniformMesh.GlobalMesh) (A : Type) (q : UniformMesh.query A)
          (qs : list {B : Type & UniformMesh.query B}),
      snd (UniformMesh.call prec emax q m) = m /\
      UniformMesh.after_calls prec emax qs m = m /\
      fst (UniformMesh.call prec emax q (snd (UniformMesh.call prec emax q m)))
      = fst (UniformMesh.call prec emax q m) /\
      fst (UniformMesh.call prec emax q (UniformMesh.after_calls prec emax qs m))
      = fst (UniformMesh.call prec emax q m)) /\
  (forall (m : NonUniformMesh.GlobalMesh) (A : Type) (q : NonUniformMesh.query A)
          (qs : list {B : Type & NonUniformMesh.query B}),
      snd (NonUniformMesh.call prec emax q m) = m /\
      NonUniformMesh.after_calls prec emax qs m = m /\
      fst (NonUniformMesh.call prec emax q (snd (NonUniformMesh.call prec emax q m)))
      = fst (NonUniformMesh.call prec emax q m) /\
      fst (NonUniformMesh.call prec emax q (NonUniformMesh.after_calls prec emax qs m))
      = fst (NonUniformMesh.call prec emax q m)).
Proof.
  split; intros m A q qs.
  - assert (Hcall : forall B (q' : UniformMesh.query B) m',
               snd (UniformMesh.call prec emax q' m') = m')
      by (intros B q' m'; destruct q'; reflexivity).
    assert (Hafter : UniformMesh.after_calls prec emax qs m = m).
    { induction qs as [| [B q'] qs IH]; simpl; [reflexivity |].
      rewrite Hcall. exact IH. }
    rewrite Hafter, Hcall. auto.
  - assert (Hcall : forall B (q' : NonUniformMesh.query B) m',
               snd (NonUniformMesh.call prec emax q' m') = m')
      by (intros B q' m'; destruct q'; reflexivity).
    assert (Hafter : NonUniformMesh.after_calls prec emax qs m = m).
    { induction qs as [| [B q'] qs IH]; simpl; [reflexivity |].
      rewrite Hcall. exact IH. }
    rewrite Hafter, Hcall. auto.
Qed.

End Queries.

(** The spec's non-uniform mesh: the edges [0,1,3,6], [0,2,4] and [0,5]
    give the low corner (0,0,0), the high corner (6,4,5) and 3, 2 and 1
    cells, and [nonUniformEdge(0)] is [0,1,3,6]. *)
Lemma nonuniform_example :
  let i_edges := map Binary64.lit [0; 1; 3; 6] in
  let j_edges := map Binary64.lit [0; 2; 4] in
  let k_edges := map Binary64.lit [0; 5] in
  exists m,
    NonUniformMesh.GlobalMesh_edges i_edges j_edges k_edges = Ok m /\
    map (NonUniformMesh.lowCorner m) dims
    = map Some (map Binary64.lit [0; 0; 0]) /\
    map (NonUniformMesh.highCorner m) dims
    = map Some (map Binary64.lit [6; 4; 5]) /\
    map (NonUniformMesh.extent Binary64.prec Binary64.emax m) dims
    = map Some (map Binary64.lit [6; 4; 5]) /\
    map (NonUniformMesh.globalNumCell m) dims = [Some 3; Some 2; Some 1] /\
    NonUniformMesh.nonUniformEdge m 0 = Some i_edges.
Proof.
  eexists. split; [reflexivity |]. vm_compute. repeat split.
Qed.

Lemma nonuniform_queries_witness :
  let i_edges := map Binary64.lit [0; 1; 3; 6] in
  let j_edges := map Binary64.lit [0; 2; 4] in
  let k_edges := map Binary64.lit [0; 5] in
  let m := NonUniformMesh.Build (Array3 i_edges j_edges k_edges) in
  exists first last : Scalar,
    nth_error i_edges 0 = Some first /\
    nth_error i_edges (Nat.pred (List.length i_edges)) = Some last /\
    NonUniformMesh.lowCorner m 0 = Some first /\
    NonUniformMesh.highCorner m 0 = Some last /\
    NonUniformMesh.extent Binary64.prec Binary64.emax m 0
    = Some (sub Binary64.prec Binary64.emax last first) /\
    NonUniformMesh.globalNumCell m 0 = Some (size i_edges - 1).
Proof.
  apply (nonuniform_queries Binary64.prec Binary64.emax
           (NonUniformMesh.Build
              (Array3 (map Binary64.lit [0; 1; 3; 6]) (map Binary64.lit [0; 2; 4])
                 (map Binary64.lit [0; 5])))
           0 (map Binary64.lit [0; 1; 3; 6])).
  - left. reflexivity.
  - reflexivity.
  - vm_compute. split; discriminate.
Defined.

(** C5 as stated fails: [globalNumCell] returns an [int], and the length
    minus 1 of an edge sequence of [2^31 + 1] elements is beyond the
    largest one; the conversion makes it [- 2^31]. *)
Lemma nonuniform_globalNumCell_overflows :
  let edges := repeat (S754_zero false) (Z.to_nat (2 ^ 31 + 1)) in
  let m := NonUniformMesh.Build (Array3 edges edges edges) in
  2 <= size edges /\
  size edges - 1 = 2 ^ 31 /\
  NonUniformMesh.globalNumCell m 0 = Some (- 2 ^ 31) /\
  NonUniformMesh.globalNumCell m 0 <> Some (size edges - 1).
Proof.
  intros edges m.
  assert (Hsize : size edges = 2 ^ 31 + 1).
  { unfold size, edges. rewrite repeat_length. apply Z2Nat.id. lia. }
  assert (Hnum : NonUniformMesh.globalNumCell m 0
                 = Some (wrap_int ((size edges - 1) mod 2 ^ 64)))
    by reflexivity.
  rewrite Hnum, Hsize.
  split; [lia |]. split; [lia |].
  split; [reflexivity |].
  intros H. injection H as H. vm_compute in H. discriminate.
Qed.

(** * Further properties *)

(** ** Scalars: signs, zeros and non-numbers *)

Lemma binary_round_aux_opp (prec emax : Z) (s : bool) (m e : Z) (l : location) :
  SFopp (binary_round_aux prec emax s m e l)
  = binary_round_aux prec emax (negb s) m e l.
Proof.
  unfold binary_round_aux.
  destruct (shr_fexp prec emax m e l) as [mrs' e'].
  destruct (shr_fexp prec emax _ e' loc_Exact) as [mrs'' e''].
  destruct (shr_m mrs''); [reflexivity | | reflexivity].
  destruct (e'' <=? emax - prec); reflexivity.
Qed.

Lemma binary_round_opp (prec emax : Z) (s : bool) (m : positive) (e : Z) :
  SFopp (binary_round prec emax s m e) = binary_round prec emax (negb s) m e.
Proof.
  unfold binary_round. destruct (shl_align m e _) as [mz ez].
  apply binary_round_aux_opp.
Qed.

(** The scalar of the opposite integer is the opposite scalar, zero
    apart. *)
Lemma scalar_of_int_opp (prec emax : Z) (n : Z) :
  n <> 0 ->
  scalar_of_int prec emax (- n) = SFopp (scalar_of_int prec emax n).
Proof.
  intros Hn. unfold scalar_of_int, dyadic, binary_normalize.
  destruct n as [| p | p]; [contradiction Hn; reflexivity | |]; cbn [Z.opp];
    rewrite binary_round_opp; reflexivity.
Qed.

Lemma mul_opp_opp (prec emax : Z) (x y : Scalar) :
  mul prec emax (SFopp x) (SFopp y) = mul prec emax x y.
Proof.
  unfold mul.
  destruct x as [sx | sx | | sx mx ex], y as [sy | sy | | sy my ey]; simpl;
    try reflexivity; destruct sx, sy; reflexivity.
Qed.

Lemma div_opp_r (prec emax : Z) (x y : Scalar) :
  div prec emax x (SFopp y) = SFopp (div prec emax x y).
Proof.
  unfold div.
  destruct x as [sx | sx | | sx mx ex], y as [sy | sy | | sy my ey]; simpl;
    try reflexivity; try (destruct sx, sy; reflexivity).
  destruct (SFdiv_core_binary prec emax (Z.pos mx) ex (Z.pos my) ey) as [[mz ez] lz].
  rewrite binary_round_aux_opp. destruct sx, sy; reflexivity.
Qed.

(** [std::rint] is odd, the sign of zero included. *)
Lemma rint_opp (prec emax : Z) (x : Scalar) :
  rint prec emax (SFopp x) = SFopp (rint prec emax x).
Proof.
  destruct x as [s | s | | s m e]; try reflexivity.
  change (SFopp (S754_finite s m e)) with (S754_finite (negb s) m e).
  unfold rint.
  destruct (0 <=? e); [reflexivity |].
  destruct (shr (shr_record_of_loc (Z.pos m) loc_Exact) e (- e)) as [mrs e'].
  unfold binary_normalize.
  destruct (round_nearest_even (shr_m mrs) (loc_of_shr_record mrs)) as [| p | p];
    destruct s; cbn [cond_Zopp negb Z.opp]; try reflexivity;
    rewrite binary_round_opp; reflexivity.
Qed.

Lemma truncate_opp (x : Scalar) :
  truncate (SFopp x) = option_map Z.opp (truncate x).
Proof.
  destruct x as [s | s | | s m e]; try reflexivity.
  simpl. destruct s; simpl; f_equal; lia.
Qed.

(** A scalar converts to an [int] of the range of [int]. *)
Lemma int_of_scalar_range (x : Scalar) (k : Z) :
  int_of_scalar x = Some k -> INT_MIN <= k <= INT_MAX.
Proof.
  unfold int_of_scalar. destruct (truncate x) as [z | ]; [| discriminate].
  destruct (in_int_range z) eqn:Hz; [| discriminate].
  intros H. injection H as <-. unfold in_int_range in Hz.
  apply andb_prop in Hz. destruct Hz as [H1 H2]. lia.
Qed.

Lemma int_of_scalar_opp (x : Scalar) (k : Z) :
  int_of_scalar x = Some k -> k <> INT_MIN ->
  int_of_scalar (SFopp x) = Some (- k).
Proof.
  intros Hk Hmin. pose proof (int_of_scalar_range x k Hk) as Hrange.
  unfold int_of_scalar in *. rewrite truncate_opp.
  destruct (truncate x) as [z | ]; [| discriminate]. simpl.
  destruct (in_int_range z); [| discriminate]. injection Hk as ->.
  assert (Hin : in_int_range (- k) = true).
  { unfold in_int_range, INT_MIN, INT_MAX in *. apply andb_true_intro. lia. }
  rewrite Hin. reflexivity.
Qed.

(** A quotient that converts to [int] has a numerator that is not
    infinite and a denominator that is neither zero nor NaN. *)
Lemma quotient_converts (prec emax : Z) (e c : Scalar) (k : Z) :
  int_of_scalar (rint prec emax (div prec emax e c)) = Some k ->
  is_finite e = true /\ is_zero c = false /\ is_nan c = false.
Proof.
  unfold div.
  destruct e as [se | se | | se me ee], c as [sc | sc | | sc mc ec];
    try (intros _; repeat split; reflexivity);
    simpl; discriminate.
Qed.

(** A difference that is not infinite has operands that are not. *)
Lemma sub_finite (prec emax : Z) (h l : Scalar) :
  is_finite (sub prec emax h l) = true ->
  is_finite h = true /\ is_finite l = true.
Proof.
  unfold sub.
  destruct h as [sh | sh | | sh mh eh], l as [sl | sl | | sl ml el];
    try (intros _; split; reflexivity);
    try destruct sh; try destruct sl; simpl; discriminate.
Qed.

(** ** Uniform mesh: what the constructors accept and reject *)

Section UniformEdges.

Variables prec emax : Z.

Local Abbreviation sub := (sub prec emax).
Local Abbreviation mul := (mul prec emax).
Local Abbreviation div := (div prec emax).
Local Abbreviation rint := (rint prec emax).
Local Abbreviation scalar_of_int := (scalar_of_int prec emax).
Local Abbreviation tolerance := (tolerance prec emax).
Local Abbreviation lowCorner := UniformMesh.lowCorner.
Local Abbreviation highCorner := UniformMesh.highCorner.
Local Abbreviation extent := (UniformMesh.extent prec emax).
Local Abbreviation globalNumCell := (UniformMesh.globalNumCell prec emax).
Local Abbreviation uniformCellSize := UniformMesh.uniformCellSize.
Local Abbreviation divisibility_gap := (UniformMesh.divisibility_gap prec emax).
Local Abbreviation gap_defined := (UniformMesh.gap_defined prec emax).
Local Abbreviation within_tolerance := (UniformMesh.within_tolerance prec emax).
Local Abbreviation exceeds_tolerance := (UniformMesh.exceeds_tolerance prec emax).
Local Abbreviation passes := (UniformMesh.passes prec emax).
Local Abbreviation check_divisible := (UniformMesh.check_divisible prec emax).
Local Abbreviation GlobalMesh_cell_size := (UniformMesh.GlobalMesh_cell_size prec emax).
Local Abbreviation GlobalMesh_num_cell := (UniformMesh.GlobalMesh_num_cell prec emax).

Implicit Types (this m : UniformMesh.GlobalMesh) (d : Z) (n : array3 Z).

Lemma passes_within this n (ds : list Z) :
  forallb (passes this n) ds = true -> forallb (within_tolerance this) ds = true.
Proof.
  rewrite !forallb_forall. intros H d Hd. specialize (H d Hd).
  unfold UniformMesh.passes in H. apply andb_prop in H. apply H.
Qed.

Lemma Forall_check_divisible this (ds : list Z) :
  Forall (fun d => check_divisible this d = Ok tt) ds <->
  forallb (within_tolerance this) ds = true.
Proof.
  rewrite forallb_forall, Forall_forall.
  split; intros H d Hd; apply check_divisible_Ok, H, Hd.
Qed.

(** X1: the number of cells constructor yields only meshes that have, in
    every dimension, the number of cells asked for, which is then a
    number of the range of [int]. *)
Theorem num_cell_constructor_keeps_counts (low high : array3 Scalar) n m d :
  GlobalMesh_num_cell low high n = Ok m ->
  In d dims ->
  exists k,
    globalNumCell m d = Some k /\
    array_get n d = Some k /\
    INT_MIN <= k <= INT_MAX.
Proof.
  intros H Hd. apply GlobalMesh_num_cell_Ok in H. destruct H as [_ [_ H]].
  rewrite forallb_forall in H. specialize (H d Hd).
  unfold UniformMesh.passes, UniformMesh.num_cell_agrees in H.
  apply andb_prop in H. destruct H as [_ H].
  destruct (globalNumCell m d) as [k | ] eqn:Hk; [| discriminate].
  destruct (array_get n d) as [g | ]; [| discriminate].
  apply Z.eqb_eq in H. subst g. exists k. repeat split.
  - unfold UniformMesh.globalNumCell in Hk.
    destruct (extent m d); [| discriminate].
    apply (int_of_scalar_range _ _ Hk).
  - unfold UniformMesh.globalNumCell in Hk.
    destruct (extent m d); [| discriminate].
    apply (int_of_scalar_range _ _ Hk).
Qed.

(** X2: [globalNumCell(d)] has defined behaviour only on a mesh whose
    corners in dimension [d] are numbers and not infinite, whose extent
    there is not infinite and whose cell size is neither zero nor NaN:
    on every other mesh the quotient it converts to [int] is infinite or
    NaN.  The number of cells it then returns is one of the range of
    [int]. *)
Theorem globalNumCell_defined_only_if this d (k : Z) :
  globalNumCell this d = Some k ->
  exists h l : Scalar,
    highCorner this d = Some h /\
    lowCorner this d = Some l /\
    is_finite h = true /\
    is_finite l = true /\
    is_finite (sub h l) = true /\
    is_zero (uniformCellSize this) = false /\
    is_nan (uniformCellSize this) = false /\
    INT_MIN <= k <= INT_MAX.
Proof.
  unfold UniformMesh.globalNumCell, UniformMesh.extent.
  destruct (highCorner this d) as [h | ]; [| discriminate].
  destruct (lowCorner this d) as [l | ]; [| discriminate].
  cbn [obind]. intros Hk.
  pose proof (int_of_scalar_range _ _ Hk) as Hrange.
  apply quotient_converts in Hk. destruct Hk as [He [Hz Hn]].
  destruct (sub_finite prec emax h l He) as [Hfh Hfl].
  exists h, l. repeat split; try assumption; apply Hrange.
Qed.

(** X3: with a cell size that is zero or NaN the behaviour of the cell
    size constructor is undefined, whatever the corners: the first thing
    it does is to convert the quotient of the first dimension, which is
    infinite or NaN, to [int]. *)
Theorem cell_size_constructor_zero_or_nan (low high : array3 Scalar)
    (cell_size : Scalar) :
  is_zero cell_size || is_nan cell_size = true ->
  GlobalMesh_cell_size low high cell_size = Undefined.
Proof.
  intros Hc. unfold UniformMesh.GlobalMesh_cell_size.
  change dims with (0 :: [1; 2]). cbn [for_each].
  rewrite check_divisible_cases.
  unfold UniformMesh.divisibility_gap, UniformMesh.extent,
    UniformMesh.highCorner, UniformMesh.lowCorner.
  cbn [array_get obind UniformMesh._global_high_corner
         UniformMesh._global_low_corner UniformMesh._cell_size].
  destruct (int_of_scalar _) as [k | ] eqn:Hk; [| reflexivity].
  apply quotient_converts in Hk. destruct Hk as [_ [Hz Hn]].
  rewrite Hz, Hn in Hc. discriminate.
Qed.

(** The difference of a dimension under an infinite cell size: no cells,
    and a recomputed extent [0 * infinity] that is NaN. *)
Lemma infinite_cell_size_gap this d (e : Scalar) (s : bool) :
  extent this d = Some e ->
  is_finite e = true ->
  UniformMesh._cell_size this = S754_infinity s ->
  globalNumCell this d = Some 0 /\ divisibility_gap this d = Some S754_nan.
Proof.
  intros He Hfin Hc.
  unfold UniformMesh.globalNumCell, UniformMesh.divisibility_gap.
  rewrite He, Hc. unfold div, mul, sub.
  destruct e as [se | se | | se me ee]; try discriminate; split; reflexivity.
Qed.

(** X4: an infinite cell size is accepted by the cell size constructor
    whenever the extents are not infinite: the mesh has the infinite cell
    size and no cells in any dimension. *)
Theorem cell_size_constructor_infinite (low high : array3 Scalar) (s : bool) :
  let this := UniformMesh.Build low high (S754_infinity s) in
  (forall d, In d dims ->
             exists e, extent this d = Some e /\ is_finite e = true) ->
  GlobalMesh_cell_size low high (S754_infinity s) = Ok this /\
  forall d, In d dims -> globalNumCell this d = Some 0.
Proof.
  intros this Hext. split.
  - apply GlobalMesh_cell_size_Ok. split; [reflexivity |].
    apply forallb_forall. intros d Hd.
    destruct (Hext d Hd) as [e [He Hfin]].
    destruct (infinite_cell_size_gap this d e s He Hfin eq_refl) as [_ Hgap].
    unfold UniformMesh.within_tolerance. fold this. rewrite Hgap, gt_nan.
    reflexivity.
  - intros d Hd. destruct (Hext d Hd) as [e [He Hfin]].
    apply (infinite_cell_size_gap this d e s He Hfin eq_refl).
Qed.

Local Abbreviation sizes_differ := (UniformMesh.sizes_differ prec emax).
Local Abbreviation candidate_cell_sizes := (UniformMesh.candidate_cell_sizes prec emax).
Local Abbreviation round := (UniformMesh.round prec emax).

(** X5: with no cells asked for in any dimension, and extents of one sign
    that are neither zero nor infinite, the number of cells constructor
    yields a mesh: the candidates [extent / 0] are the same infinity,
    their difference is NaN, and the mesh has that infinite cell size
    and no cells. *)
Theorem num_cell_constructor_no_cells (low high : array3 Scalar) (s : bool)
    (m0 m1 m2 : positive) (e0 e1 e2 : Z) :
  let this := UniformMesh.Build low high (S754_infinity s) in
  sub (elt0 high) (elt0 low) = S754_finite s m0 e0 ->
  sub (elt1 high) (elt1 low) = S754_finite s m1 e1 ->
  sub (elt2 high) (elt2 low) = S754_finite s m2 e2 ->
  GlobalMesh_num_cell low high (Array3 0 0 0) = Ok this /\
  forall d, In d dims -> globalNumCell this d = Some 0.
Proof.
  intros this H0 H1 H2.
  assert (Hsize : forall p e, div (S754_finite s p e) (scalar_of_int 0)
                              = S754_infinity s)
    by (intros p e; destruct s; reflexivity).
  assert (Hgaps : forall d, In d dims ->
             globalNumCell this d = Some 0 /\
             divisibility_gap this d = Some S754_nan).
  { intros d [<- | [<- | [<- | []]]];
      eapply infinite_cell_size_gap; try reflexivity;
      unfold UniformMesh.extent; cbn; first [rewrite H0 | rewrite H1 | rewrite H2];
      reflexivity. }
  split; [| intros d Hd; apply Hgaps, Hd].
  rewrite (GlobalMesh_num_cell_cases prec emax low high (Array3 0 0 0) _
             (S754_infinity s) (S754_infinity s) (S754_infinity s) eq_refl).
  - assert (Hsame : sizes_differ (S754_infinity s) (S754_infinity s) = false)
      by (unfold UniformMesh.sizes_differ; destruct s; cbn; apply gt_nan).
    rewrite Hsame. cbn [orb]. apply then_Ok_is_Ok. split; [| reflexivity].
    apply for_each_Ok, Forall_round_passes, forallb_forall. intros d Hd.
    destruct (Hgaps d Hd) as [Hnum Hgap]. fold this.
    unfold UniformMesh.passes, UniformMesh.within_tolerance,
      UniformMesh.num_cell_agrees.
    rewrite Hgap, Hnum, gt_nan.
    destruct Hd as [<- | [<- | [<- | []]]]; reflexivity.
  - cbn. rewrite H0. f_equal. apply Hsize.
  - cbn. rewrite H1. f_equal. apply Hsize.
  - cbn. rewrite H2. f_equal. apply Hsize.
Qed.

Lemma then_Ok_is_Undefined {A : Type} (c : outcome unit) (a : A) :
  (c ;; Ok a)%outcome = Undefined <-> c = Undefined.
Proof. destruct c as [[] | w | ]; simpl; split; congruence. Qed.

Lemma gap_defined_false this d :
  gap_defined this d = false <-> divisibility_gap this d = None.
Proof.
  unfold UniformMesh.gap_defined.
  destruct (divisibility_gap this d); split; congruence.
Qed.

Lemma GlobalMesh_cell_size_Throw (low high : array3 Scalar) (cell_size : Scalar)
    (what : string) :
  let this := UniformMesh.Build low high cell_size in
  GlobalMesh_cell_size low high cell_size = Throw what <->
  what = UniformMesh.not_divisible /\
  exists pre d post,
    dims = pre ++ d :: post /\
    forallb (within_tolerance this) pre = true /\
    exceeds_tolerance this d = true.
Proof.
  intros this. unfold UniformMesh.GlobalMesh_cell_size. fold this.
  rewrite then_Ok_is_Throw.
  rewrite (for_each_first_failure dims (check_divisible this) (Throw what))
    by discriminate.
  split.
  - intros [pre [d [post [E [Hpre H]]]]].
    apply check_divisible_Throw in H. destruct H as [-> Hx].
    split; [reflexivity |]. exists pre, d, post.
    repeat split; auto. apply Forall_check_divisible, Hpre.
  - intros [-> [pre [d [post [E [Hpre Hx]]]]]].
    exists pre, d, post. repeat split; auto.
    + apply Forall_check_divisible, Hpre.
    + apply check_divisible_Throw. auto.
Qed.

Lemma GlobalMesh_cell_size_Undefined (low high : array3 Scalar)
    (cell_size : Scalar) :
  let this := UniformMesh.Build low high cell_size in
  GlobalMesh_cell_size low high cell_size = Undefined <->
  exists pre d post,
    dims = pre ++ d :: post /\
    forallb (within_tolerance this) pre = true /\
    gap_defined this d = false.
Proof.
  intros this. unfold UniformMesh.GlobalMesh_cell_size. fold this.
  rewrite then_Ok_is_Undefined.
  rewrite (for_each_first_failure dims (check_divisible this) Undefined)
    by discriminate.
  split; intros [pre [d [post [E [Hpre H]]]]]; exists pre, d, post;
    repeat split; auto.
  - apply Forall_check_divisible, Hpre.
  - apply gap_defined_false, check_divisible_Undefined, H.
  - apply Forall_check_divisible, Hpre.
  - apply check_divisible_Undefined, gap_defined_false, H.
Qed.

(** X6: the cell size constructor fails in two ways only.  It throws exactly
    when, at the first dimension that is not within tolerance, the
    difference exceeds the tolerance, and then with the
    "extent not evenly divisible" error; its behaviour is undefined
    exactly when at that dimension a conversion to [int] is out of
    range. *)
Theorem cell_size_constructor_failures (low high : array3 Scalar)
    (cell_size : Scalar) :
  let this := UniformMesh.Build low high cell_size in
  (forall what,
      GlobalMesh_cell_size low high cell_size = Throw what <->
      what = UniformMesh.not_divisible /\
      exists pre d post,
        dims = pre ++ d :: post /\
        forallb (within_tolerance this) pre = true /\
        exceeds_tolerance this d = true) /\
  (GlobalMesh_cell_size low high cell_size = Undefined <->
   exists pre d post,
     dims = pre ++ d :: post /\
     forallb (within_tolerance this) pre = true /\
     gap_defined this d = false).
Proof.
  intros this. split.
  - intros what. apply GlobalMesh_cell_size_Throw.
  - apply GlobalMesh_cell_size_Undefined.
Qed.

(** X7: the number of cells constructor throws one of its three errors and
    no other, and the three are told apart by their messages. *)
Theorem num_cell_constructor_errors (low high : array3 Scalar) n (what : string) :
  (GlobalMesh_num_cell low high n = Throw what ->
   what = UniformMesh.sizes_not_equal \/
   what = UniformMesh.not_divisible \/
   what = UniformMesh.num_cell_mismatch) /\
  UniformMesh.sizes_not_equal <> UniformMesh.not_divisible /\
  UniformMesh.sizes_not_equal <> UniformMesh.num_cell_mismatch /\
  UniformMesh.not_divisible <> UniformMesh.num_cell_mismatch.
Proof.
  split; [| repeat split; discriminate].
  rewrite (GlobalMesh_num_cell_cases prec emax low high n _ _ _ _
             eq_refl eq_refl eq_refl eq_refl).
  destruct (sizes_differ _ _ || sizes_differ _ _).
  - intros H. injection H as <-. auto.
  - intros H. apply then_Ok_is_Throw in H.
    apply for_each_first_failure in H; [| discriminate].
    destruct H as [pre [d [post [_ [_ H]]]]].
    apply round_Throw in H. tauto.
Qed.

Lemma make_shared_Ok {T : Type} (c : outcome T) (p : shared_ptr T) :
  make_shared c = Ok p <-> c = Ok (get p).
Proof.
  unfold make_shared. destruct c as [a | w | ]; simpl; split;
    try discriminate.
  - intros H. injection H as <-. reflexivity.
  - intros H. injection H as ->. destruct p. reflexivity.
Qed.

Lemma make_shared_Throw {T : Type} (c : outcome T) (what : string) :
  make_shared c = Throw what <-> c = Throw what.
Proof.
  unfold make_shared. destruct c as [a | w | ]; simpl; split; congruence.
Qed.

(** X8: what [createUniformGlobalMesh] makes from numbers of cells, it makes
    again from the cell size of that mesh: the numbers of cells
    constructor is at least as strict as the cell size constructor run on
    the candidate of dimension I.  When the first fails with the
    "extent not evenly divisible" error, so does the second. *)
Theorem create_by_num_cell_then_by_cell_size (low high : array3 Scalar) n :
  (forall p,
      createUniformGlobalMesh_num_cell prec emax low high n = Ok p ->
      createUniformGlobalMesh_cell_size prec emax low high
        (uniformCellSize (get p)) = Ok p) /\
  (forall size_i,
      array_get (candidate_cell_sizes low high n) Dim.I = Some size_i ->
      createUniformGlobalMesh_num_cell prec emax low high n
      = Throw UniformMesh.not_divisible ->
      createUniformGlobalMesh_cell_size prec emax low high size_i
      = Throw UniformMesh.not_divisible).
Proof.
  unfold createUniformGlobalMesh_num_cell, createUniformGlobalMesh_cell_size.
  split.
  - intros p H. rewrite make_shared_Ok in *.
    apply GlobalMesh_num_cell_Ok in H. destruct H as [_ [E H]].
    apply GlobalMesh_cell_size_Ok. rewrite E at 1 2. split; [reflexivity |].
    apply (passes_within _ n), H.
  - intros size_i Hi H. rewrite make_shared_Throw in *.
    rewrite (GlobalMesh_num_cell_cases prec emax low high n _ size_i _ _
               eq_refl Hi eq_refl eq_refl) in H.
    destruct (sizes_differ _ _ || sizes_differ _ _); [discriminate |].
    apply then_Ok_is_Throw in H.
    apply for_each_first_failure in H; [| discriminate].
    destruct H as [pre [d [post [E [Hpre H]]]]].
    apply round_not_divisible in H.
    apply GlobalMesh_cell_size_Throw.
    split; [reflexivity |]. exists pre, d, post. repeat split; auto.
    apply (passes_within _ n), Forall_round_passes, Hpre.
Qed.

(** With no cells, the recomputed extent is a zero or NaN, and the
    difference is the same under the opposite cell size. *)
Lemma zero_cells_gap_opp (c e : Scalar) :
  is_finite e = true ->
  abs (sub (mul (S754_zero false) (SFopp c)) e)
  = abs (sub (mul (S754_zero false) c) e).
Proof.
  unfold abs, sub, mul.
  destruct c as [sc | sc | | sc mc ec], e as [se | se | | se me ee];
    try discriminate; intros _; try reflexivity;
    destruct sc; try reflexivity; destruct se; reflexivity.
Qed.

(** One dimension under the opposite cell size: the opposite number of
    cells and the same difference. *)
Lemma opposite_cell_size_dimension (low high : array3 Scalar)
    (cell_size : Scalar) d (k : Z) :
  let this := UniformMesh.Build low high cell_size in
  let that := UniformMesh.Build low high (SFopp cell_size) in
  globalNumCell this d = Some k ->
  k <> INT_MIN ->
  globalNumCell that d = Some (- k) /\
  divisibility_gap that d = divisibility_gap this d.
Proof.
  intros this that Hk Hmin.
  unfold UniformMesh.globalNumCell, UniformMesh.divisibility_gap in *.
  change (extent that d) with (extent this d).
  destruct (extent this d) as [e | ]; [| discriminate].
  cbn [obind UniformMesh._cell_size this that] in *.
  pose proof (quotient_converts prec emax e cell_size k Hk) as [He _].
  rewrite div_opp_r, rint_opp.
  rewrite (int_of_scalar_opp _ k Hk Hmin), Hk. cbn [obind].
  split; [reflexivity |]. f_equal.
  destruct (Z.eq_dec k 0) as [-> | Hnz].
  - apply zero_cells_gap_opp, He.
  - rewrite scalar_of_int_opp by exact Hnz. rewrite mul_opp_opp. reflexivity.
Qed.

(** X9: the sign of the cell size is not looked at: whenever the cell size
    constructor yields a mesh, none of whose numbers of cells is the
    least [int], it yields one for the opposite cell size too, with the
    opposite number of cells in every dimension. *)
Theorem cell_size_constructor_opposite (low high : array3 Scalar)
    (cell_size : Scalar) m :
  let that := UniformMesh.Build low high (SFopp cell_size) in
  GlobalMesh_cell_size low high cell_size = Ok m ->
  (forall d, In d dims -> globalNumCell m d <> Some INT_MIN) ->
  GlobalMesh_cell_size low high (SFopp cell_size) = Ok that /\
  forall d k, In d dims ->
              globalNumCell m d = Some k -> globalNumCell that d = Some (- k).
Proof.
  intros that Hm Hmin.
  apply GlobalMesh_cell_size_Ok in Hm. destruct Hm as [-> Hall].
  rewrite forallb_forall in Hall.
  assert (Hdim : forall d k, In d dims ->
             globalNumCell (UniformMesh.Build low high cell_size) d = Some k ->
             globalNumCell that d = Some (- k) /\
             within_tolerance that d = true).
  { intros d k Hd Hk.
    assert (Hk' : k <> INT_MIN) by (intros ->; apply (Hmin d Hd), Hk).
    destruct (opposite_cell_size_dimension low high cell_size d k Hk Hk')
      as [Hnum Hgap].
    split; [exact Hnum |].
    specialize (Hall d Hd). unfold UniformMesh.within_tolerance in *.
    unfold that. rewrite Hgap. exact Hall. }
  split.
  - apply GlobalMesh_cell_size_Ok. split; [reflexivity |].
    apply forallb_forall. intros d Hd.
    destruct (within_tolerance_globalNumCell prec emax _ d (Hall d Hd)) as [k Hk].
    apply (Hdim d k Hd Hk).
  - intros d k Hd Hk. apply (Hdim d k Hd Hk).
Qed.

End UniformEdges.

(** ** Scalars: the order *)

Lemma compare_cont_Eq (p q : positive) :
  PosDef.Pos.compare_cont Eq p q = (p ?= q)%positive.
Proof. reflexivity. Qed.

(** "Less than" is transitive. *)
Lemma SFltb_trans (x y z : spec_float) :
  SFltb x y = true -> SFltb y z = true -> SFltb x z = true.
Proof.
  unfold SFltb.
  destruct x as [[] | [] | | [] mx ex], y as [[] | [] | | [] my ey],
      z as [[] | [] | | [] mz ez];
    simpl; try discriminate; try reflexivity;
    repeat match goal with
           | |- context [PosDef.Pos.compare_cont Eq ?p ?q] =>
               rewrite (compare_cont_Eq p q)
           end;
    destruct (Z.compare_spec ex ey); try discriminate;
    destruct (Z.compare_spec ey ez); try discriminate;
    destruct (Z.compare_spec ex ez); try lia; try reflexivity;
    destruct (Pos.compare_spec mx my); simpl; try discriminate;
    destruct (Pos.compare_spec my mz); simpl; try discriminate;
    destruct (Pos.compare_spec mx mz); simpl; try lia; reflexivity.
Qed.

Lemma SFltb_irrefl (x : spec_float) : SFltb x x = false.
Proof.
  unfold SFltb. pose proof (SFcompare_antisym x x) as E.
  destruct (SFcompare x x) as [[] | ]; simpl in E; try reflexivity; discriminate.
Qed.

Lemma gt_trans (x y z : Scalar) :
  gt z y = true -> gt y x = true -> gt z x = true.
Proof. unfold gt. intros H1 H2. apply (SFltb_trans x y z); assumption. Qed.

(** ** Non-uniform mesh: the edge sequences *)

Lemma back_app {T : Type} (v : list T) (x : T) : back (v ++ [x]) = Some x.
Proof.
  induction v as [| y v IH]; [reflexivity |].
  destruct v as [| z v]; [reflexivity |]. exact IH.
Qed.

(** In a strictly increasing sequence every edge after the first is
    greater than the first. *)
Lemma strictly_increasing_first (x : Scalar) (v : list Scalar) :
  strictly_increasing (x :: v) = true ->
  Forall (fun y => gt y x = true) v.
Proof.
  revert x. induction v as [| y v IH]; intros x H; [constructor |].
  cbn [strictly_increasing] in H. apply andb_prop in H. destruct H as [Hyx Hv].
  constructor; [exact Hyx |].
  specialize (IH y Hv). rewrite Forall_forall in *.
  intros z Hz. apply (gt_trans x y z); auto.
Qed.

(** In a strictly increasing sequence every edge is the last one or is
    less than it. *)
Lemma strictly_increasing_last (v : list Scalar) (hi : Scalar) :
  strictly_increasing v = true ->
  back v = Some hi ->
  Forall (fun y => y = hi \/ gt hi y = true) v.
Proof.
  induction v as [| x v IH]; intros Hv Hback; [constructor |].
  destruct v as [| y v].
  - injection Hback as ->. constructor; [left; reflexivity | constructor].
  - cbn [strictly_increasing] in Hv. apply andb_prop in Hv.
    destruct Hv as [Hyx Hv].
    change (back (x :: y :: v)) with (back (y :: v)) in Hback.
    specialize (IH Hv Hback).
    constructor; [| exact IH].
    right. apply Forall_cons_iff in IH. destruct IH as [[-> | Hy] _].
    + exact Hyx.
    + apply (gt_trans x y hi); assumption.
Qed.

Section NonUniformEdges.

Variables prec emax : Z.

Local Abbreviation sub := (sub prec emax).
Local Abbreviation lowCorner := NonUniformMesh.lowCorner.
Local Abbreviation highCorner := NonUniformMesh.highCorner.
Local Abbreviation extent := (NonUniformMesh.extent prec emax).
Local Abbreviation globalNumCell := NonUniformMesh.globalNumCell.
Local Abbreviation nonUniformEdge := NonUniformMesh.nonUniformEdge.

Implicit Types (this that : NonUniformMesh.GlobalMesh) (d : Z).

(** X10: of strictly increasing edges, at least two, the low corner is less
    than the high corner, and every edge is the low corner or greater,
    and the high corner or less: the precondition that the constructor
    does not check gives the corners their meaning. *)
Theorem nonuniform_increasing_edges this d (edges : list Scalar) :
  nonUniformEdge this d = Some edges ->
  strictly_increasing edges = true ->
  (2 <= List.length edges)%nat ->
  exists lo hi : Scalar,
    lowCorner this d = Some lo /\
    highCorner this d = Some hi /\
    gt hi lo = true /\
    Forall (fun x => (x = lo \/ gt x lo = true) /\
                     (x = hi \/ gt hi x = true)) edges.
Proof.
  unfold NonUniformMesh.nonUniformEdge, NonUniformMesh.lowCorner,
    NonUniformMesh.highCorner.
  intros -> Hinc Hlen. cbn [obind].
  destruct edges as [| lo [| y v]]; simpl in Hlen; try lia.
  destruct (back (lo :: y :: v)) as [hi | ] eqn:Hback.
  2:{ rewrite back_nth_error in Hback. apply nth_error_None in Hback.
      simpl in Hback. lia. }
  pose proof (strictly_increasing_first lo (y :: v) Hinc) as Hfirst.
  pose proof (strictly_increasing_last (lo :: y :: v) hi Hinc Hback) as Hlast.
  exists lo, hi. repeat split.
  - apply Forall_cons_iff in Hlast. destruct Hlast as [[-> | H] _]; [| exact H].
    exfalso.
    assert (Hin : In hi (y :: v)).
    { change (back (hi :: y :: v)) with (back (y :: v)) in Hback.
      rewrite back_nth_error in Hback. apply nth_error_In in Hback. exact Hback. }
    rewrite Forall_forall in Hfirst. specialize (Hfirst hi Hin).
    unfold gt in Hfirst. rewrite SFltb_irrefl in Hfirst. discriminate.
  - rewrite Forall_forall in *. intros x Hx. split; [| apply Hlast, Hx].
    destruct Hx as [-> | Hx]; [left; reflexivity | right; apply Hfirst, Hx].
Qed.

(** X11: one more edge at the end of the sequence of a dimension, which has
    an edge already and fewer than [2^31]: the low corner stays, the new
    edge is the high corner, and there is one cell more. *)
Theorem nonuniform_append_edge this that d (edges : list Scalar) (x : Scalar) :
  nonUniformEdge this d = Some edges ->
  nonUniformEdge that d = Some (edges ++ [x]) ->
  1 <= size edges <= INT_MAX ->
  lowCorner that d = lowCorner this d /\
  highCorner that d = Some x /\
  globalNumCell this d = Some (size edges - 1) /\
  globalNumCell that d = Some (size edges).
Proof.
  unfold NonUniformMesh.nonUniformEdge, NonUniformMesh.lowCorner,
    NonUniformMesh.highCorner, NonUniformMesh.globalNumCell.
  intros -> -> Hsize. cbn [obind]. repeat split.
  - destruct edges; [unfold size in Hsize; simpl in Hsize; lia | reflexivity].
  - apply back_app.
  - rewrite wrap_int_size_t; [reflexivity | lia].
  - assert (E : size (edges ++ [x]) - 1 = size edges).
    { unfold size. rewrite length_app. simpl. lia. }
    rewrite E. rewrite wrap_int_size_t; [reflexivity | lia].
Qed.

(** X12: [createNonUniformGlobalMesh] makes a mesh of any edge sequences.  A
    dimension without edges then has no corners and no extent, and [-1]
    cells; a dimension with one edge has that edge for both corners and
    no cells. *)
Theorem nonuniform_degenerate_edges (i_edges j_edges k_edges : list Scalar) :
  exists p,
    createNonUniformGlobalMesh i_edges j_edges k_edges = Ok p /\
    forall d edges,
      nonUniformEdge (get p) d = Some edges ->
      (edges = [] ->
       lowCorner (get p) d = None /\
       highCorner (get p) d = None /\
       extent (get p) d = None /\
       globalNumCell (get p) d = Some (- 1)) /\
      (forall x, edges = [x] ->
       lowCorner (get p) d = Some x /\
       highCorner (get p) d = Some x /\
       extent (get p) d = Some (sub x x) /\
       globalNumCell (get p) d = Some 0).
Proof.
  eexists. split; [reflexivity |]. cbn [get].
  unfold NonUniformMesh.nonUniformEdge, NonUniformMesh.extent,
    NonUniformMesh.lowCorner, NonUniformMesh.highCorner,
    NonUniformMesh.globalNumCell.
  intros d edges ->. split; [intros -> | intros x ->]; repeat split.
Qed.

End NonUniformEdges.

(** ** The further properties, on the meshes of the spec *)

Lemma num_cell_constructor_keeps_counts_witness :
  let m := UniformMesh.Build (Binary64.corner 0 0 0) (Binary64.corner 10 10 10)
             (Binary64.lit 2) in
  exists k,
    UniformMesh.globalNumCell Binary64.prec Binary64.emax m 0 = Some k /\
    array_get (Array3 5 5 5) 0 = Some k /\
    INT_MIN <= k <= INT_MAX.
Proof.
  apply (num_cell_constructor_keeps_counts Binary64.prec Binary64.emax
           (Binary64.corner 0 0 0) (Binary64.corner 10 10 10) (Array3 5 5 5)).
  - vm_compute. reflexivity.
  - left. reflexivity.
Defined.

Lemma globalNumCell_defined_only_if_witness :
  let m := UniformMesh.Build (Binary64.corner 0 0 0) (Binary64.corner 10 10 10)
             (Binary64.lit 2) in
  UniformMesh.globalNumCell Binary64.prec Binary64.emax m 0 = Some 5 /\
  exists h l : Scalar,
    UniformMesh.highCorner m 0 = Some h /\
    UniformMesh.lowCorner m 0 = Some l /\
    is_finite h = true /\
    is_finite l = true /\
    is_finite (sub Binary64.prec Binary64.emax h l) = true /\
    is_zero (UniformMesh.uniformCellSize m) = false /\
    is_nan (UniformMesh.uniformCellSize m) = false /\
    INT_MIN <= 5 <= INT_MAX.
Proof.
  split; [vm_compute; reflexivity |].
  apply (globalNumCell_defined_only_if Binary64.prec Binary64.emax
           (UniformMesh.Build (Binary64.corner 0 0 0) (Binary64.corner 10 10 10)
              (Binary64.lit 2)) 0 5).
  vm_compute. reflexivity.
Defined.

Lemma cell_size_constructor_zero_or_nan_witness :
  UniformMesh.GlobalMesh_cell_size Binary64.prec Binary64.emax
    (Binary64.corner 0 0 0) (Binary64.corner 10 10 10) (Binary64.lit 0)
  = Undefined /\
  UniformMesh.GlobalMesh_cell_size Binary64.prec Binary64.emax
    (Binary64.corner 0 0 0) (Binary64.corner 10 10 10) S754_nan
  = Undefined.
Proof.
  split;
    apply (cell_size_constructor_zero_or_nan Binary64.prec Binary64.emax);
    reflexivity.
Defined.

Lemma cell_size_constructor_infinite_witness :
  let low := Binary64.corner 0 0 0 in
  let high := Binary64.corner 10 10 10 in
  let this := UniformMesh.Build low high Binary64.infinity in
  UniformMesh.GlobalMesh_cell_size Binary64.prec Binary64.emax
    low high Binary64.infinity = Ok this /\
  forall d, In d dims ->
            UniformMesh.globalNumCell Binary64.prec Binary64.emax this d = Some 0.
Proof.
  apply (cell_size_constructor_infinite Binary64.prec Binary64.emax
           (Binary64.corner 0 0 0) (Binary64.corner 10 10 10) false).
  intros d [<- | [<- | [<- | []]]]; eexists; split; vm_compute; reflexivity.
Defined.

Lemma num_cell_constructor_no_cells_witness :
  let low := Binary64.corner 0 0 0 in
  let high := Binary64.corner 10 10 10 in
  let this := UniformMesh.Build low high Binary64.infinity in
  UniformMesh.GlobalMesh_num_cell Binary64.prec Binary64.emax
    low high (Array3 0 0 0) = Ok this /\
  forall d, In d dims ->
            UniformMesh.globalNumCell Binary64.prec Binary64.emax this d = Some 0.
Proof.
  apply (num_cell_constructor_no_cells Binary64.prec Binary64.emax
           (Binary64.corner 0 0 0) (Binary64.corner 10 10 10) false
           5629499534213120 5629499534213120 5629499534213120
           (- 49) (- 49) (- 49));
    vm_compute; reflexivity.
Defined.

Lemma cell_size_constructor_failures_witness :
  UniformMesh.GlobalMesh_cell_size Binary64.prec Binary64.emax
    (Binary64.corner 0 0 0) (Binary64.corner 10 10 10) (Binary64.lit 3)
  = Throw UniformMesh.not_divisible.
Proof.
  apply (cell_size_constructor_failures Binary64.prec Binary64.emax
           (Binary64.corner 0 0 0) (Binary64.corner 10 10 10) (Binary64.lit 3)).
  split; [reflexivity |]. exists [], 0, [1; 2].
  split; [reflexivity |]. split; [reflexivity |]. vm_compute. reflexivity.
Defined.

Lemma num_cell_constructor_errors_witness :
  UniformMesh.sizes_not_equal = UniformMesh.sizes_not_equal \/
  UniformMesh.sizes_not_equal = UniformMesh.not_divisible \/
  UniformMesh.sizes_not_equal = UniformMesh.num_cell_mismatch.
Proof.
  apply (num_cell_constructor_errors Binary64.prec Binary64.emax
           (Binary64.corner 0 0 0) (Binary64.corner 10 10 20) (Array3 5 5 5)
           UniformMesh.sizes_not_equal).
  vm_compute. reflexivity.
Defined.

Lemma create_by_num_cell_then_by_cell_size_witness :
  let low := Binary64.corner 0 0 0 in
  let high := Binary64.corner 10 10 10 in
  let p := SharedPtr (UniformMesh.Build low high (Binary64.lit 2)) in
  createUniformGlobalMesh_num_cell Binary64.prec Binary64.emax low high
    (Array3 5 5 5) = Ok p /\
  createUniformGlobalMesh_cell_size Binary64.prec Binary64.emax low high
    (UniformMesh.uniformCellSize (get p)) = Ok p.
Proof.
  split; [vm_compute; reflexivity |].
  apply (create_by_num_cell_then_by_cell_size Binary64.prec Binary64.emax
           (Binary64.corner 0 0 0) (Binary64.corner 10 10 10) (Array3 5 5 5)).
  vm_compute. reflexivity.
Defined.

Lemma cell_size_constructor_opposite_witness :
  let low := Binary64.corner 0 0 0 in
  let high := Binary64.corner 10 10 10 in
  let that := UniformMesh.Build low high (Binary64.lit (- 2)) in
  UniformMesh.GlobalMesh_cell_size Binary64.prec Binary64.emax
    low high (Binary64.lit (- 2)) = Ok that /\
  UniformMesh.globalNumCell Binary64.prec Binary64.emax that 0 = Some (- 5).
Proof.
  destruct (cell_size_constructor_opposite Binary64.prec Binary64.emax
              (Binary64.corner 0 0 0) (Binary64.corner 10 10 10) (Binary64.lit 2)
              (UniformMesh.Build (Binary64.corner 0 0 0) (Binary64.corner 10 10 10)
                 (Binary64.lit 2)))
    as [Hthat Hnum].
  - vm_compute. reflexivity.
  - intros d [<- | [<- | [<- | []]]]; vm_compute; discriminate.
  - split; [exact Hthat |].
    apply (Hnum 0 5); [left; reflexivity | vm_compute; reflexivity].
Defined.

Lemma nonuniform_increasing_edges_witness :
  let i_edges := map Binary64.lit [0; 1; 3; 6] in
  let m := NonUniformMesh.Build
             (Array3 i_edges (map Binary64.lit [0; 2; 4]) (map Binary64.lit [0; 5])) in
  exists lo hi : Scalar,
    NonUniformMesh.lowCorner m 0 = Some lo /\
    NonUniformMesh.highCorner m 0 = Some hi /\
    gt hi lo = true /\
    Forall (fun x => (x = lo \/ gt x lo = true) /\
                     (x = hi \/ gt hi x = true)) i_edges.
Proof.
  apply (nonuniform_increasing_edges
           (NonUniformMesh.Build
              (Array3 (map Binary64.lit [0; 1; 3; 6]) (map Binary64.lit [0; 2; 4])
                 (map Binary64.lit [0; 5])))
           0 (map Binary64.lit [0; 1; 3; 6])).
  - reflexivity.
  - vm_compute. reflexivity.
  - simpl. lia.
Defined.

Lemma nonuniform_append_edge_witness :
  let edges := map Binary64.lit [0; 1; 3] in
  let j_edges := map Binary64.lit [0; 2; 4] in
  let this := NonUniformMesh.Build (Array3 edges j_edges j_edges) in
  let that := NonUniformMesh.Build (Array3 (edges ++ [Binary64.lit 6]) j_edges j_edges) in
  NonUniformMesh.lowCorner that 0 = NonUniformMesh.lowCorner this 0 /\
  NonUniformMesh.highCorner that 0 = Some (Binary64.lit 6) /\
  NonUniformMesh.globalNumCell this 0 = Some (size edges - 1) /\
  NonUniformMesh.globalNumCell that 0 = Some (size edges).
Proof.
  apply (nonuniform_append_edge
           (NonUniformMesh.Build
              (Array3 (map Binary64.lit [0; 1; 3]) (map Binary64.lit [0; 2; 4])
                 (map Binary64.lit [0; 2; 4])))
           (NonUniformMesh.Build
              (Array3 (map Binary64.lit [0; 1; 3] ++ [Binary64.lit 6])
                 (map Binary64.lit [0; 2; 4]) (map Binary64.lit [0; 2; 4])))
           0 (map Binary64.lit [0; 1; 3]) (Binary64.lit 6)).
  - reflexivity.
  - reflexivity.
  - vm_compute. split; discriminate.
Defined.

Lemma nonuniform_degenerate_edges_witness :
  exists p,
    createNonUniformGlobalMesh [] [Binary64.lit 7] (map Binary64.lit [0; 5]) = Ok p /\
    NonUniformMesh.globalNumCell (get p) 0 = Some (- 1) /\
    NonUniformMesh.lowCorner (get p) 0 = None /\
    NonUniformMesh.highCorner (get p) 1 = Some (Binary64.lit 7) /\
    NonUniformMesh.globalNumCell (get p) 1 = Some 0.
Proof.
  destruct (nonuniform_degenerate_edges Binary64.prec Binary64.emax
              [] [Binary64.lit 7] (map Binary64.lit [0; 5])) as [p [Hp H]].
  exists p. split; [exact Hp |].
  injection Hp as <-.
  destruct (H 0 [] eq_refl) as [Hempty _].
  destruct (H 1 [Binary64.lit 7] eq_refl) as [_ Hone].
  specialize (Hempty eq_refl). specialize (Hone (Binary64.lit 7) eq_refl).
  tauto.
Defined.
